(** * crypto-tracker: ordered price store, ingestion task, scheduler and RPC handlers

    A shallow embedding of the JavaScript sources

    - [src/database/hyperbeeClient.js]  (store client: [initDB], [savePriceData],
      [getLatestPrice], [getHistoricalPrices]),
    - [src/components/scheduler.js]     (class [Scheduler]),
    - [src/services/coingecko.js]       ([getTopCoins], [fetchTopCryptoData]),
    - [src/services/rpcService.js]      (the three RPC handlers),
    - [src/server.js]                   ([dataCollectionTask]),

    followed by the properties of the specification that were checked
    against it.

    Conventions.
    - A JavaScript string is represented by its UTF-8 bytes (a Rocq [string]
      is a list of 8-bit characters).  Hyperbee compares keys encoded with
      [keyEncoding: 'utf-8'] byte by byte, and every string operation the
      sources use on keys (concatenation, [startsWith], [split('/')],
      [parseInt]) commutes with the encoding.  The character ['\xff'] is
      U+00FF, two bytes [0xC3 0xBF].
    - Timestamps are integer-valued JavaScript numbers ([Date.now()]), kept as
      [Z]; [numToString] is the decimal text a template literal produces for
      them.
    - Prices are finite numbers, kept as rationals; the store never computes
      with them.
    - Synchronous and awaited-in-sequence code runs in the monad [Eff]
      (state and exceptions; the state survives a [throw]).  The scheduler,
      whose task executions overlap, is a transition system over suspended
      [Async] computations. *)

From Stdlib Require Import String Ascii List ZArith Bool Lia DecimalString.
From Stdlib Require Import DecimalZ DecimalPos Permutation.
From Stdlib Require Import Sorted OrderedTypeEx.
From Stdlib Require QArith_base.
Import ListNotations.
Set Warnings "-register-all".
Local Open Scope list_scope.
Local Open Scope string_scope.

(* ================================================================== *)
(** * JavaScript values and builtins used by the sources *)
(* ================================================================== *)

Module Js.

(** A thrown [Error], identified with its [message]. *)
Definition Error := string.

(** Completion of a call: normal return or a thrown error. *)
Inductive Result (A : Type) : Type :=
| Ok (a : A)
| Raise (e : Error).
Arguments Ok {A} a.
Arguments Raise {A} e.

(** A finite JavaScript number that is only stored and returned. *)
Definition Number := QArith_base.Q.

(** Lines written with [console.log], [console.warn], [console.error]. *)
Inductive LogLine : Type :=
| ConsoleLog (msg : string)
| ConsoleWarn (msg : string)
| ConsoleError (msg : string) (err : Error).

(** [`${t}`] for an integer-valued number [t] (of magnitude below 10^21,
    where JavaScript prints every digit). *)
Definition numToString (t : Z) : string :=
  NilZero.string_of_int (Z.to_int t).

(** A number as a handler receives it from [JSON.parse]: an integer (of
    magnitude below 10^21), or any other number (fractional, 1e21 and
    beyond, [Infinity] for a literal such as [1e999]), given by the text a
    template literal prints for it. *)
Inductive JsNumber : Type :=
| Integer (z : Z)
| OtherNumber (text : string).

(** [`${n}`] *)
Definition showNumber (n : JsNumber) : string :=
  match n with
  | Integer z => numToString z
  | OtherNumber text => text
  end.

(** ['\xff'] in UTF-8. *)
Definition xff : string :=
  String (ascii_of_nat 195) (String (ascii_of_nat 191) EmptyString).

(** [s.startsWith(p)] *)
Definition startsWith (s p : string) : bool := String.prefix p s.

(** [s.split('/')] *)
Fixpoint split_slash (s : string) : list string :=
  match s with
  | EmptyString => [EmptyString]
  | String c rest =>
      if Ascii.eqb c "/"%char then EmptyString :: split_slash rest
      else match split_slash rest with
           | h :: t => String c h :: t
           | [] => [String c EmptyString]
           end
  end.

(** [a[i]]: [None] stands for [undefined]. *)
Definition index {A : Type} (a : list A) (i : nat) : option A := nth_error a i.

Definition isWhite (c : ascii) : bool :=
  let n := nat_of_ascii c in
  (Nat.eqb n 32 || (Nat.leb 9 n && Nat.leb n 13))%bool.

(** Value of [c] as a digit in the given radix. *)
Definition digitOf (radix : Z) (c : ascii) : option Z :=
  let n := Z.of_nat (nat_of_ascii c) in
  let v := if ((48 <=? n) && (n <=? 57))%Z%bool then Some (n - 48)%Z
           else if ((97 <=? n) && (n <=? 122))%Z%bool then Some (n - 87)%Z
           else if ((65 <=? n) && (n <=? 90))%Z%bool then Some (n - 55)%Z
           else None in
  match v with
  | Some d => if (d <? radix)%Z then Some d else None
  | None => None
  end.

(** Longest prefix of digits, accumulated left to right; [None] when there
    is no digit at all. *)
Fixpoint parseDigits (radix : Z) (s : string) (acc : option Z) : option Z :=
  match s with
  | EmptyString => acc
  | String c rest =>
      match digitOf radix c with
      | Some d =>
          parseDigits radix rest
            (Some (match acc with Some a => a * radix + d | None => d end)%Z)
      | None => acc
      end
  end.

Fixpoint skipWhite (s : string) : string :=
  match s with
  | String c rest => if isWhite c then skipWhite rest else s
  | EmptyString => s
  end.

(** [parseInt(x)] with no radix argument.  [None] is [NaN]; the argument
    [None] is [undefined], whose text has no digit.  White space is the
    ASCII white space; a [0x] prefix selects radix 16. *)
Definition parseInt (x : option string) : option Z :=
  match x with
  | None => None
  | Some s =>
      let s1 := skipWhite s in
      let '(neg, s2) :=
        match s1 with
        | String "-" r => (true, r)
        | String "+" r => (false, r)
        | _ => (false, s1)
        end in
      let '(radix, s3) :=
        match s2 with
        | String "0" (String "x" r) => (16%Z, r)
        | String "0" (String "X" r) => (16%Z, r)
        | _ => (10%Z, s2)
        end in
      match parseDigits radix s3 None with
      | Some v => Some (if neg then (- v)%Z else v)
      | None => None
      end
  end.

(** [m || fallback] on strings: the empty string is falsy. *)
Definition orElse (m fallback : string) : string :=
  match m with EmptyString => fallback | _ => m end.

End Js.
Export Js.

(* ================================================================== *)
(** * Hyperbee: the ordered key/value store the client talks to *)
(* ================================================================== *)

(** Hyperbee is a library, not part of the repository.  It is modelled by
    what the client relies on: entries kept in ascending byte order of their
    keys, one entry per key, [put] replacing the entry of an existing key,
    and [createReadStream] delivering the entries of a closed key range in
    ascending (or, with [reverse], descending) order, at most [limit] of
    them. *)

Module Hyperbee.

(** The stored value [{ averagePrice, exchanges }] (valueEncoding json). *)
Record Value : Type := mkValue {
  averagePrice : Number;
  exchanges : list string
}.

Record Entry : Type := mkEntry {
  key : string;
  value : Value
}.

(** State of the storage medium under the store: a write fault makes [put]
    reject; a read fault [(n, e)] makes a read stream throw [e] after having
    delivered [n] entries. *)
Record Medium : Type := mkMedium {
  writeFault : option Error;
  readFault : option (nat * Error)
}.

Definition healthy : Medium := mkMedium None None.

Record t : Type := mkBee {
  entries : list Entry;
  version : nat;          (* number of blocks appended: one per [put] *)
  medium : Medium
}.

Definition empty : t := mkBee [] 0 healthy.

Fixpoint insert (k : string) (v : Value) (es : list Entry) : list Entry :=
  match es with
  | [] => [mkEntry k v]
  | e :: rest =>
      match String.compare k (key e) with
      | Lt => mkEntry k v :: e :: rest
      | Eq => mkEntry k v :: rest
      | Gt => e :: insert k v rest
      end
  end.

(** [await db.put(k, v)] *)
Definition put (k : string) (v : Value) (b : t) : Result unit * t :=
  match writeFault (medium b) with
  | Some e => (Raise e, b)
  | None => (Ok tt, mkBee (insert k v (entries b)) (S (version b)) (medium b))
  end.

Record ReadOptions : Type := mkOpts {
  gte : string;
  lte : string;
  reverse : bool;
  limit : option nat
}.

Definition inRange (o : ReadOptions) (e : Entry) : bool :=
  (String.leb (gte o) (key e) && String.leb (key e) (lte o))%bool.

(** The entries a fault-free stream delivers, in delivery order. *)
Definition scan (o : ReadOptions) (es : list Entry) : list Entry :=
  let hits := filter (inRange o) es in
  let ordered := if reverse o then rev hits else hits in
  match limit o with
  | Some n => firstn n ordered
  | None => ordered
  end.

(** [db.createReadStream(o)] consumed by [for await]: the entries delivered
    and the error that ends the iteration, if any. *)
Definition createReadStream (o : ReadOptions) (b : t)
  : list Entry * option Error :=
  match readFault (medium b) with
  | Some (n, e) => (firstn n (scan o (entries b)), Some e)
  | None => (scan o (entries b), None)
  end.

(** Byte order on keys, and the invariant of the store: keys strictly
    ascending. *)
Definition before (a b : string) : Prop := String.compare a b = Lt.

Definition keyLt (a b : Entry) : Prop := before (key a) (key b).

Definition wf (b : t) : Prop := StronglySorted keyLt (entries b).

End Hyperbee.

(* ================================================================== *)
(** * The effect monad of sequential code *)
(* ================================================================== *)

Module Effects.

(** What [initDB] returns: a reference to the Hyperbee instance it built.
    [hid] is the identity of the object, [hpath] the resolved path of its
    Hypercore. *)
Record Handle : Type := mkHandle {
  hid : nat;
  hpath : string
}.

Record Coin : Type := mkCoin {
  id : string;
  symbol : string
}.

(** The world a call runs in.
    - [hbee]: the module-level variable of hyperbeeClient.js;
    - [nextId]: identity given to the next object that is constructed;
    - [resolve], [diskFault]: [path.resolve], and the error with which
      [ready()] rejects for a Hypercore at a resolved path, if it does;
    - [bee]: the state of the Hyperbee instance behind the handle;
    - [clock]: what [Date.now()] returns;
    - [markets]: outcome of the coins/markets request of [getTopCoins],
      already mapped to [{id, symbol}];
    - [priceOf]: what [getAveragePrice(id, 'USDT', 3)] resolves to
      ([None] is [null]); its HTTP request and floating-point average are
      not modelled;
    - [console]: the lines logged so far, oldest first. *)
Record World : Type := mkWorld {
  hbee : option Handle;
  nextId : nat;
  resolve : string -> string;
  diskFault : string -> option Error;
  bee : Hyperbee.t;
  clock : Z;
  markets : Result (list Coin);
  priceOf : string -> option Hyperbee.Value;
  console : list LogLine
}.

Definition Eff (A : Type) : Type := World -> Result A * World.

Definition ret {A : Type} (a : A) : Eff A := fun w => (Ok a, w).

Definition throw {A : Type} (e : Error) : Eff A := fun w => (Raise e, w).

Definition bind {A B : Type} (m : Eff A) (f : A -> Eff B) : Eff B :=
  fun w =>
    match m w with
    | (Ok a, w') => f a w'
    | (Raise e, w') => (Raise e, w')
    end.

(** [try { m } catch (error) { h error }] *)
Definition tryCatch {A : Type} (m : Eff A) (h : Error -> Eff A) : Eff A :=
  fun w =>
    match m w with
    | (Ok a, w') => (Ok a, w')
    | (Raise e, w') => h e w'
    end.

Definition setConsole (c : list LogLine) (w : World) : World :=
  mkWorld (hbee w) (nextId w) (resolve w) (diskFault w) (bee w) (clock w)
          (markets w) (priceOf w) c.

Definition setBee (b : Hyperbee.t) (w : World) : World :=
  mkWorld (hbee w) (nextId w) (resolve w) (diskFault w) b (clock w)
          (markets w) (priceOf w) (console w).

Definition setClock (c : Z) (w : World) : World :=
  mkWorld (hbee w) (nextId w) (resolve w) (diskFault w) (bee w) c
          (markets w) (priceOf w) (console w).

Definition setHbee (h : option Handle) (n : nat) (w : World) : World :=
  mkWorld h n (resolve w) (diskFault w) (bee w) (clock w)
          (markets w) (priceOf w) (console w).

Definition emit (l : LogLine) : Eff unit :=
  fun w => (Ok tt, setConsole (console w ++ [l])%list w).

Definition consoleLog (msg : string) : Eff unit := emit (ConsoleLog msg).
Definition consoleWarn (msg : string) : Eff unit := emit (ConsoleWarn msg).
Definition consoleError (msg : string) (e : Error) : Eff unit :=
  emit (ConsoleError msg e).

(** [Date.now()] *)
Definition dateNow : Eff Z := fun w => (Ok (clock w), w).

(** [await new Promise(resolve => setTimeout(resolve, ms))] *)
Definition sleep (ms : Z) : Eff unit :=
  fun w => (Ok tt, setClock (clock w + ms)%Z w).

(** [await db.put(k, v)] on the instance behind the handle. *)
Definition dbPut (k : string) (v : Hyperbee.Value) : Eff unit :=
  fun w => let '(r, b) := Hyperbee.put k v (bee w) in (r, setBee b w).

(** [db.createReadStream(o)] *)
Definition dbStream (o : Hyperbee.ReadOptions)
  : Eff (list Hyperbee.Entry * option Error) :=
  fun w => (Ok (Hyperbee.createReadStream o (bee w)), w).

Definition liftResult {A : Type} (r : Result A) : Eff A := fun w => (r, w).

(** [for (const x of xs) { await body(x) }] *)
Fixpoint forEach {A : Type} (xs : list A) (body : A -> Eff unit) : Eff unit :=
  match xs with
  | [] => ret tt
  | x :: rest => bind (body x) (fun _ => forEach rest body)
  end.

(** A loop that pushes one result per element. *)
Fixpoint mapM {A B : Type} (f : A -> Eff B) (xs : list A) : Eff (list B) :=
  match xs with
  | [] => ret []
  | x :: rest =>
      bind (f x) (fun y => bind (mapM f rest) (fun ys => ret (y :: ys)))
  end.

End Effects.
Export Effects.

Declare Scope eff_scope.
Delimit Scope eff_scope with eff.
Notation "x <- c1 ;; c2" := (bind c1 (fun x => c2))
  (at level 61, c1 at next level, right associativity) : eff_scope.
Notation "c1 ;; c2" := (bind c1 (fun _ => c2))
  (at level 61, right associativity) : eff_scope.
Local Open Scope eff_scope.

(* ================================================================== *)
(** * src/database/hyperbeeClient.js *)
(* ================================================================== *)

Module HyperbeeClient.

(** The argument of [savePriceData]; [coinGeckoId] is carried by the
    objects [fetchTopCryptoData] builds and is not stored. *)
Record DataPoint : Type := mkPoint {
  pair : string;
  timestamp : Z;
  averagePrice : Number;
  exchanges : list string;
  coinGeckoId : option string
}.

(** The objects [getLatestPrice] and [getHistoricalPrices] return:
    [{ pair, timestamp: parseInt(...), ...entry.value }].  A [timestamp] of
    [None] is [NaN]. *)
Record PriceEntry : Type := mkPrice {
  p_pair : string;
  p_timestamp : option Z;
  p_averagePrice : Number;
  p_exchanges : list string
}.

(** [`${pair}/${timestamp}`] *)
Definition keyOf (pair : string) (timestamp : Z) : string :=
  pair ++ "/" ++ numToString timestamp.

(** [async function initDB(storagePath = './db/hyperdata')] *)
Definition initDB (storagePath : option string) : Eff Handle :=
  fun w =>
    match hbee w with
    | Some h => (Ok h, w)
    | None =>
        let storagePath :=
          match storagePath with Some p => p | None => "./db/hyperdata" end in
        let h := mkHandle (nextId w) (resolve w storagePath) in
        let w1 := setHbee (Some h) (S (nextId w)) w in
        match diskFault w (hpath h) with
        | Some e => (Raise e, w1)
        | None =>
            (Ok h,
             setConsole
               (console w1 ++
                [ConsoleLog ("Hyperbee database initialized at: " ++ storagePath)])%list
               w1)
        end
    end.

(** [getDB: () => hbee] *)
Definition getDB : Eff (option Handle) := fun w => (Ok (hbee w), w).

(** [async function savePriceData(db, { pair, timestamp, averagePrice, exchanges })] *)
Definition savePriceData (db : option Handle) (d : DataPoint) : Eff unit :=
  match db with
  | None => throw "Hyperbee instance is not initialized. Call initDB first."
  | Some _ =>
      let key := keyOf (pair d) (timestamp d) in
      let value := Hyperbee.mkValue (averagePrice d) (exchanges d) in
      tryCatch
        (dbPut key value)
        (fun error => consoleError ("Error saving data for " ++ key ++ ":") error)
  end.

(** The object built from an entry of the stream. *)
Definition entryOf (pair : string) (e : Hyperbee.Entry) : PriceEntry :=
  mkPrice pair
          (parseInt (index (split_slash (Hyperbee.key e)) 1))
          (Hyperbee.averagePrice (Hyperbee.value e))
          (Hyperbee.exchanges (Hyperbee.value e)).

(** [async function getLatestPrice(db, pair)]; [None] is [null]. *)
Definition getLatestPrice (db : option Handle) (pair : string)
  : Eff (option PriceEntry) :=
  match db with
  | None => throw "Hyperbee instance is not initialized."
  | Some _ =>
      let prefix := pair ++ "/" in
      tryCatch
        (s <- dbStream (Hyperbee.mkOpts prefix (prefix ++ xff) true (Some 1)) ;;
         match s with
         | (entry :: _, _) => ret (Some (entryOf pair entry))   (* break *)
         | ([], Some error) => throw error
         | ([], None) => ret None
         end)
        (fun error =>
           consoleError ("Error fetching latest price for " ++ pair ++ ":") error ;;
           ret None)
  end.

(** The comparator [(a, b) => a.timestamp - b.timestamp] is positive. *)
Definition after (a b : PriceEntry) : bool :=
  match p_timestamp a, p_timestamp b with
  | Some x, Some y => (y <? x)%Z
  | _, _ => false
  end.

Fixpoint insertSorted (x : PriceEntry) (l : list PriceEntry) : list PriceEntry :=
  match l with
  | [] => [x]
  | y :: rest => if after x y then y :: insertSorted x rest else x :: l
  end.

(** [results.sort((a, b) => a.timestamp - b.timestamp)]: a stable sort. *)
Definition sortByTimestamp (l : list PriceEntry) : list PriceEntry :=
  fold_right insertSorted [] l.

(** [async function getHistoricalPrices(db, pair, fromTimestamp, toTimestamp)] *)
Definition getHistoricalPrices (db : option Handle) (pair : string)
    (fromTimestamp toTimestamp : Z) : Eff (list PriceEntry) :=
  match db with
  | None => throw "Hyperbee instance is not initialized."
  | Some _ =>
      let startKey := keyOf pair fromTimestamp in
      let endKey := keyOf pair toTimestamp in
      s <- dbStream (Hyperbee.mkOpts startKey endKey false None) ;;
      let results :=
        map (entryOf pair)
            (filter (fun entry => startsWith (Hyperbee.key entry) (pair ++ "/"))
                    (fst s)) in
      match snd s with
      | Some error =>
          consoleError ("Error fetching historical prices for " ++ pair ++ ":") error
      | None => ret tt
      end ;;
      ret (sortByTimestamp results)
  end.

(** [getHistoricalPrices] called with bounds that are any numbers, as the
    RPC handler passes them on; on integers it is the function above. *)
Definition getHistoricalPricesOf (db : option Handle) (pair : string)
    (fromTimestamp toTimestamp : JsNumber) : Eff (list PriceEntry) :=
  match db with
  | None => throw "Hyperbee instance is not initialized."
  | Some _ =>
      let startKey := pair ++ "/" ++ showNumber fromTimestamp in
      let endKey := pair ++ "/" ++ showNumber toTimestamp in
      s <- dbStream (Hyperbee.mkOpts startKey endKey false None) ;;
      let results :=
        map (entryOf pair)
            (filter (fun entry => startsWith (Hyperbee.key entry) (pair ++ "/"))
                    (fst s)) in
      match snd s with
      | Some error =>
          consoleError ("Error fetching historical prices for " ++ pair ++ ":") error
      | None => ret tt
      end ;;
      ret (sortByTimestamp results)
  end.

End HyperbeeClient.

(* ================================================================== *)
(** * src/services/coingecko.js *)
(* ================================================================== *)

Module Coingecko.

Import HyperbeeClient.

(** [async function getTopCoins(n = 5)].  The request is answered by the
    world ([markets]); the extra line logged for an HTTP error response is
    left out. *)
Definition getTopCoins (n : Z) : Eff (list Coin) :=
  tryCatch
    (fun w => (markets w, w))
    (fun error =>
       consoleError "Error fetching top coins from CoinGecko:" error ;;
       ret []).

(** [async function getAveragePrice(coinId, targetCurrency, numExchanges)],
    by its result. *)
Definition getAveragePrice (coinId : string) : Eff (option Hyperbee.Value) :=
  fun w => (Ok (priceOf w coinId), w).

(** The body of [for (const coin of topCoins) { ... }] in
    [fetchTopCryptoData], with the [results] pushed so far. *)
Fixpoint fetchLoop (coins : list Coin) (results : list DataPoint)
  : Eff (list DataPoint) :=
  match coins with
  | [] => ret results
  | coin :: rest =>
      consoleLog ("Fetching price for " ++ id coin ++ " (" ++ symbol coin ++ ")...") ;;
      priceData <- getAveragePrice (id coin) ;;
      results' <-
        match priceData with
        | Some pd =>
            now <- dateNow ;;
            ret (results ++
                 [mkPoint (symbol coin ++ "-" ++ "USDT") now
                          (Hyperbee.averagePrice pd)
                          (Hyperbee.exchanges pd)
                          (Some (id coin))])%list
        | None =>
            consoleWarn ("Could not retrieve average price for " ++ id coin) ;;
            ret results
        end ;;
      sleep 500 ;;
      fetchLoop rest results'
  end.

(** [async function fetchTopCryptoData()] *)
Definition fetchTopCryptoData : Eff (list DataPoint) :=
  topCoins <- getTopCoins 5 ;;
  match topCoins with
  | [] =>
      consoleLog "No top coins fetched, skipping price data retrieval." ;;
      ret []
  | _ => fetchLoop topCoins []
  end.

(** Two worlds in which the feed answers alike. *)
Definition sameFeed (w1 w2 : World) : Prop :=
  markets w1 = markets w2 /\ priceOf w1 = priceOf w2 /\ clock w1 = clock w2.

End Coingecko.

(* ================================================================== *)
(** * src/server.js: the ingestion task *)
(* ================================================================== *)

Module Server.

Import HyperbeeClient.

Definition FETCH_INTERVAL_MS : Z := 30 * 1000.

(** [const dataCollectionTask = async () => { ... }], closed over the
    module-level [cryptoDB]. *)
Definition dataCollectionTask (cryptoDB : option Handle) : Eff unit :=
  consoleLog "Running data collection task..." ;;
  tryCatch
    (cryptoData <- Coingecko.fetchTopCryptoData ;;
     match cryptoData with
     | _ :: _ =>
         forEach cryptoData (fun dataPoint => savePriceData cryptoDB dataPoint) ;;
         consoleLog ("Collected and saved data for "
                       ++ numToString (Z.of_nat (List.length cryptoData))
                       ++ " crypto pairs.")
     | [] => consoleLog "No new crypto data fetched."
     end)
    (fun error => consoleError "Error during data collection task:" error).

End Server.

(* ================================================================== *)
(** * Worlds used in examples *)
(* ================================================================== *)

Module Scenario.

Import HyperbeeClient.

(** A process that has just opened an empty store on a sound medium; the
    feed lists no coin. *)
Definition freshWorld : World :=
  mkWorld None 0 (fun p => p) (fun _ => None) Hyperbee.empty 0 (Ok [])
          (fun _ => None) [].

Definition db0 : option Handle := Some (mkHandle 0 "./db/crypto-prices").

(** The store of example scenario 1 after its first write. *)
Definition oneRecord : World :=
  snd (savePriceData db0
         (mkPoint "BTC-USDT" 1000 (QArith_base.Qmake 50000 1) ["A"; "B"] None)
         freshWorld).

(** A store whose medium rejects every write. *)
Definition readOnly : World :=
  setBee (Hyperbee.mkBee [] 0 (Hyperbee.mkMedium (Some "EIO: i/o error") None))
         freshWorld.

End Scenario.

(* ================================================================== *)
(** * Asynchronous functions that await the scheduled task *)
(* ================================================================== *)

Module AsyncJs.

(** How the promise returned by [this.task()] settles. *)
Inductive Outcome : Type :=
| Fulfilled
| Rejected (e : Error).

(** The body of an [async] function, up to its completion.  [AwaitTask k]
    is [await this.task()]: the task is called at that point and the
    function is suspended until the task's promise settles. *)
Inductive Async (A : Type) : Type :=
| Ret (a : A)
| Throw (e : Error)
| Console (l : LogLine) (k : Async A)
| AwaitTask (k : Outcome -> Async A).
Arguments Ret {A} a.
Arguments Throw {A} e.
Arguments Console {A} l k.
Arguments AwaitTask {A} k.

Fixpoint abind {A B : Type} (m : Async A) (f : A -> Async B) : Async B :=
  match m with
  | Ret a => f a
  | Throw e => Throw e
  | Console l k => Console l (abind k f)
  | AwaitTask k => AwaitTask (fun o => abind (k o) f)
  end.

(** [try { m } catch (error) { h error }] *)
Fixpoint acatch {A : Type} (m : Async A) (h : Error -> Async A) : Async A :=
  match m with
  | Ret a => Ret a
  | Throw e => h e
  | Console l k => Console l (acatch k h)
  | AwaitTask k => AwaitTask (fun o => acatch (k o) h)
  end.

Definition alog (msg : string) : Async unit := Console (ConsoleLog msg) (Ret tt).
Definition aerror (msg : string) (e : Error) : Async unit :=
  Console (ConsoleError msg e) (Ret tt).

(** [await this.task()] *)
Definition awaitTask : Async unit :=
  AwaitTask (fun o => match o with Fulfilled => Ret tt | Rejected e => Throw e end).

(** Where a call stands once it has run as far as it can. *)
Inductive Status (A : Type) : Type :=
| Done (a : A)
| Failed (e : Error)
| Suspended (k : Outcome -> Async A).
Arguments Done {A} a.
Arguments Failed {A} e.
Arguments Suspended {A} k.

(** Run a body until it completes or reaches its next [await]. *)
Fixpoint advance {A : Type} (m : Async A) (out : list LogLine)
  : Status A * list LogLine :=
  match m with
  | Ret a => (Done a, out)
  | Throw e => (Failed e, out)
  | Console l k => advance k (out ++ [l])%list
  | AwaitTask k => (Suspended k, out)
  end.

End AsyncJs.
Export AsyncJs.

(* ================================================================== *)
(** * src/components/scheduler.js *)
(* ================================================================== *)

Module Scheduler.

(** The mutable fields of a [Scheduler] object; [task] and [intervalMs]
    are fixed at construction. *)
Record t : Type := mkScheduler {
  intervalMs : Z;
  timerId : option nat;
  isRunning : bool
}.

(** [constructor(task, intervalMs)] *)
Definition new (intervalMs : Z) : t := mkScheduler intervalMs None false.

(** [async runTask()] *)
Definition runTask : Async unit :=
  abind (alog "Scheduler: Executing scheduled task...") (fun _ =>
  acatch
    (abind awaitTask (fun _ => alog "Scheduler: Task completed successfully."))
    (fun error => aerror "Scheduler: Error during scheduled task execution:" error)).

(** [async runOnDemand()] *)
Definition runOnDemand : Async unit :=
  abind (alog "Scheduler: Executing task on demand...") (fun _ => runTask).

End Scheduler.

(* ================================================================== *)
(** * src/services/rpcService.js *)
(* ================================================================== *)

Module RpcService.

Import HyperbeeClient.

(** What [JSON.parse] returns. *)
Inductive Json : Type :=
| JNull
| JBool (b : bool)
| JNum (n : JsNumber)
| JStr (s : string)
| JArr (items : list Json)
| JObj (fields : list (string * Json)).

(** The object a handler serialises into its response buffer. *)
Inductive Payload : Type :=
| LatestPrices (results : list (option PriceEntry))
| HistoricalPrices (results : list (string * list PriceEntry))
| ErrorPayload (error : string)
| TriggerAck (success : bool) (message : string).

(** [`${v}`]: the text of a value used inside a template literal. *)
Fixpoint toStr (v : Json) : string :=
  match v with
  | JNull => "null"
  | JBool true => "true"
  | JBool false => "false"
  | JNum n => showNumber n
  | JStr s => s
  | JArr items =>
      String.concat ","
        ((fix each (l : list Json) : list string :=
            match l with
            | [] => []
            | JNull :: r => "" :: each r
            | x :: r => toStr x :: each r
            end) items)
  | JObj _ => "[object Object]"
  end.

(** Last binding of a name in an object literal, as [JSON.parse] keeps it. *)
Fixpoint lookup (name : string) (fields : list (string * Json)) : option Json :=
  match fields with
  | [] => None
  | (k, v) :: rest =>
      match lookup name rest with
      | Some v' => Some v'
      | None => if String.eqb k name then Some v else None
      end
  end.

(** [const { name } = v]: destructuring [null] throws, a value without
    the property gives [undefined] ([None]). *)
Definition destructure (v : Json) (name : string) : Eff (option Json) :=
  match v with
  | JNull =>
      throw ("Cannot destructure property '" ++ name ++ "' of 'JSON.parse(...)' as it is null.")
  | JObj fields => ret (lookup name fields)
  | _ => ret None
  end.

(** [results[pair] = data] on a plain object (names kept in insertion
    order). *)
Fixpoint objSet {A : Type} (name : string) (data : A) (o : list (string * A))
  : list (string * A) :=
  match o with
  | [] => [(name, data)]
  | (k, d) :: rest =>
      if String.eqb k name then (k, data) :: rest
      else (k, d) :: objSet name data rest
  end.

(** [rpcServer.respond('getLatestPrices', async (reqRaw) => { ... })].
    [parsed] is the outcome of [JSON.parse(reqRaw.toString('utf-8'))]. *)
Definition getLatestPrices (hbee : Handle) (parsed : Result Json) : Eff Payload :=
  tryCatch
    (v <- liftResult parsed ;;
     pairs <- destructure v "pairs" ;;
     match pairs with
     | Some (JArr pairs) =>
         results <- mapM (fun pair => getLatestPrice (Some hbee) (toStr pair)) pairs ;;
         ret (LatestPrices results)
     | _ => throw "Invalid request: pairs must be an array."
     end)
    (fun error =>
       consoleError "[RPC getLatestPrices] Error:" error ;;
       ret (ErrorPayload (orElse error "Failed to get latest prices."))).

(** The body of [for (const pair of pairs) { ... }] in the handler of
    [getHistoricalPrices], with the [results] object filled so far. *)
Fixpoint historicalLoop (hbee : Handle) (from to : JsNumber) (pairs : list Json)
    (results : list (string * list PriceEntry)) : Eff Payload :=
  match pairs with
  | [] => ret (HistoricalPrices results)
  | pair :: rest =>
      historicalData <-
        HyperbeeClient.getHistoricalPricesOf (Some hbee) (toStr pair) from to ;;
      historicalLoop hbee from to rest (objSet (toStr pair) historicalData results)
  end.

(** [rpcServer.respond('getHistoricalPrices', async (reqRaw) => { ... })] *)
Definition getHistoricalPrices (hbee : Handle) (parsed : Result Json) : Eff Payload :=
  tryCatch
    (v <- liftResult parsed ;;
     pairs <- destructure v "pairs" ;;
     from <- destructure v "from" ;;
     to <- destructure v "to" ;;
     match pairs, from, to with
     | Some (JArr pairs), Some (JNum from), Some (JNum to) =>
         historicalLoop hbee from to pairs []
     | _, _, _ =>
         throw "Invalid request: pairs must be an array, from and to must be numbers."
     end)
    (fun error =>
       consoleError "[RPC getHistoricalPrices] Error:" error ;;
       ret (ErrorPayload (orElse error "Failed to get historical prices."))).

(** [rpcServer.respond('triggerDataCollection', async (reqRaw) => { ... })] *)
Definition triggerDataCollection : Async Payload :=
  abind (alog "[RPC triggerDataCollection] Received request.") (fun _ =>
  acatch
    (abind Scheduler.runOnDemand (fun _ =>
     Ret (TriggerAck true "Data collection task triggered successfully.")))
    (fun error =>
       abind (aerror "[RPC triggerDataCollection] Error:" error) (fun _ =>
       Ret (TriggerAck false (orElse error "Failed to trigger data collection."))))).

(** [function setupRpcHandlers(rpcServer, hbee, scheduler)]: the three
    handlers above are registered only when [hbee] and [scheduler] are
    given, which is why they take an [hbee] that is not missing. *)
Definition setupRpcHandlers (hbee : option Handle) (scheduler : option Scheduler.t)
  : Result (Handle * Scheduler.t) :=
  match hbee, scheduler with
  | None, _ => Raise "Hyperbee instance must be provided to setupRpcHandlers."
  | Some _, None => Raise "Scheduler instance must be provided to setupRpcHandlers."
  | Some h, Some s => Ok (h, s)
  end.

(** ** What the handlers check *)

(** The request is a JSON object whose [pairs] is a list. *)
Definition hasPairsList (parsed : Result Json) : bool :=
  match parsed with
  | Ok (JObj fields) =>
      match lookup "pairs" fields with
      | Some (JArr _) => true
      | _ => false
      end
  | _ => false
  end.

(** The request is a JSON object whose field [name] is a number. *)
Definition hasNumber (name : string) (parsed : Result Json) : bool :=
  match parsed with
  | Ok (JObj fields) =>
      match lookup name fields with
      | Some (JNum _) => true
      | _ => false
      end
  | _ => false
  end.

(** The request passes the one test of the [getLatestPrices] handler:
    [Array.isArray(pairs)], on a request that could be parsed and
    destructured. *)
Definition passesLatest (parsed : Result Json) : bool :=
  hasPairsList parsed.

(** The request passes the tests of the [getHistoricalPrices] handler:
    [Array.isArray(pairs)], [typeof from === 'number'] and
    [typeof to === 'number']. *)
Definition passesHistorical (parsed : Result Json) : bool :=
  hasPairsList parsed && hasNumber "from" parsed && hasNumber "to" parsed.

(** ** The request schema of the specification *)

Definition isString (v : Json) : bool :=
  match v with JStr _ => true | _ => false end.

Definition isInt64 (v : Json) : bool :=
  match v with
  | JNum (Integer z) => ((- 2 ^ 63 <=? z) && (z <? 2 ^ 63))%Z
  | _ => false
  end.

(** The request is an object whose field [name] satisfies [shape]. *)
Definition fieldIs (name : string) (shape : Json -> bool) (parsed : Result Json)
  : bool :=
  match parsed with
  | Ok (JObj fields) =>
      match lookup name fields with
      | Some v => shape v
      | None => false
      end
  | _ => false
  end.

Definition isStringList (v : Json) : bool :=
  match v with JArr items => forallb isString items | _ => false end.

(** [{pairs: [string]}] *)
Definition conformsLatest (parsed : Result Json) : bool :=
  fieldIs "pairs" isStringList parsed.

(** [{pairs: [string], from: int64, to: int64}] *)
Definition conformsHistorical (parsed : Result Json) : bool :=
  fieldIs "pairs" isStringList parsed
  && fieldIs "from" isInt64 parsed
  && fieldIs "to" isInt64 parsed.


End RpcService.

(* ================================================================== *)
(** * The event loop around one scheduler *)
(* ================================================================== *)

(** Calls of [start], [stop] and [runOnDemand], ticks of the interval timer,
    [triggerDataCollection] requests and the settling of task promises reach
    the single thread one at a time, in any order.  A call runs until it
    returns or is suspended at [await this.task()]; from then on that
    execution of the task is in flight, until its promise settles. *)

Module EventLoop.

Import RpcService.

(** Who waits for an execution of the task: a [runTask()] nobody awaits
    (called by [start], by the timer or by a direct [runOnDemand()]), or the
    handler of an RPC request. *)
Inductive Waiter : Type :=
| Detached (k : Outcome -> Async unit)
| Responding (req : nat) (k : Outcome -> Async Payload).

Record Execution : Type := mkExec {
  exec : nat;
  waiter : Waiter
}.

Record Loop : Type := mkLoop {
  sched : Scheduler.t;
  timers : list nat;            (* intervals set and not cleared *)
  nextTimer : nat;
  pending : list Execution;     (* executions of the task in flight *)
  nextExec : nat;
  out : list LogLine;
  replies : list (nat * Payload);   (* responses handed to the transport *)
  faults : list (nat * Error);      (* handler exceptions seen by the transport *)
  unhandled : list Error            (* rejections of promises nobody awaits *)
}.

Definition boot (intervalMs : Z) : Loop :=
  mkLoop (Scheduler.new intervalMs) [] 0 [] 0 [] [] [] [].

Definition inFlight (L : Loop) : nat := List.length (pending L).

Definition logL (l : LogLine) (L : Loop) : Loop :=
  mkLoop (sched L) (timers L) (nextTimer L) (pending L) (nextExec L)
         (out L ++ [l])%list (replies L) (faults L) (unhandled L).

(** Outcome of a call nobody awaits, run to its first suspension. *)
Definition settleDetached (s : Status unit * list LogLine) (L : Loop) : Loop :=
  match s with
  | (Done _, o) =>
      mkLoop (sched L) (timers L) (nextTimer L) (pending L) (nextExec L)
             o (replies L) (faults L) (unhandled L)
  | (Failed e, o) =>
      mkLoop (sched L) (timers L) (nextTimer L) (pending L) (nextExec L)
             o (replies L) (faults L) (unhandled L ++ [e])%list
  | (Suspended k, o) =>
      mkLoop (sched L) (timers L) (nextTimer L)
             (pending L ++ [mkExec (nextExec L) (Detached k)])%list
             (S (nextExec L)) o (replies L) (faults L) (unhandled L)
  end.

(** Outcome of the handler of request [req]. *)
Definition settleResponding (req : nat) (s : Status Payload * list LogLine)
    (L : Loop) : Loop :=
  match s with
  | (Done p, o) =>
      mkLoop (sched L) (timers L) (nextTimer L) (pending L) (nextExec L)
             o (replies L ++ [(req, p)])%list (faults L) (unhandled L)
  | (Failed e, o) =>
      mkLoop (sched L) (timers L) (nextTimer L) (pending L) (nextExec L)
             o (replies L) (faults L ++ [(req, e)])%list (unhandled L)
  | (Suspended k, o) =>
      mkLoop (sched L) (timers L) (nextTimer L)
             (pending L ++ [mkExec (nextExec L) (Responding req k)])%list
             (S (nextExec L)) o (replies L) (faults L) (unhandled L)
  end.

Definition spawn (m : Async unit) (L : Loop) : Loop :=
  settleDetached (advance m (out L)) L.

Definition serve (req : nat) (m : Async Payload) (L : Loop) : Loop :=
  settleResponding req (advance m (out L)) L.

(** [start()] *)
Definition start (L : Loop) : Loop :=
  if Scheduler.isRunning (sched L) then
    logL (ConsoleLog "Scheduler: Already running.") L
  else
    let L1 :=
      logL (ConsoleLog ("Scheduler: Starting task to run every "
                          ++ numToString (Scheduler.intervalMs (sched L) / 1000)
                          ++ " seconds.")) L in
    let L2 := spawn Scheduler.runTask L1 in
    let timer := nextTimer L2 in
    mkLoop (Scheduler.mkScheduler (Scheduler.intervalMs (sched L2)) (Some timer) true)
           (timers L2 ++ [timer])%list (S timer)
           (pending L2) (nextExec L2) (out L2) (replies L2) (faults L2)
           (unhandled L2).

(** [clearInterval(id)] *)
Definition clearInterval (id : option nat) (ts : list nat) : list nat :=
  match id with
  | Some t => filter (fun x => negb (Nat.eqb x t)) ts
  | None => ts
  end.

(** [stop()] *)
Definition stop (L : Loop) : Loop :=
  if negb (Scheduler.isRunning (sched L)) then
    logL (ConsoleLog "Scheduler: Not running.") L
  else
    logL (ConsoleLog "Scheduler: Stopped.")
      (mkLoop (Scheduler.mkScheduler (Scheduler.intervalMs (sched L)) None false)
              (clearInterval (Scheduler.timerId (sched L)) (timers L))
              (nextTimer L) (pending L) (nextExec L) (out L) (replies L)
              (faults L) (unhandled L)).

Inductive Event : Type :=
| CallStart
| CallStop
| CallRunOnDemand                    (* [scheduler.runOnDemand()], not awaited *)
| Tick (timer : nat)                 (* the interval callback [() => this.runTask()] *)
| Request (req : nat)                (* a [triggerDataCollection] request arrives *)
| Settle (x : nat) (o : Outcome).    (* the task promise of execution [x] settles *)

(** Take execution [x] out of the executions in flight. *)
Fixpoint take (x : nat) (l : list Execution) : option (Execution * list Execution) :=
  match l with
  | [] => None
  | e :: rest =>
      if Nat.eqb (exec e) x then Some (e, rest)
      else match take x rest with
           | Some (f, rest') => Some (f, e :: rest')
           | None => None
           end
  end.

Definition setPending (p : list Execution) (L : Loop) : Loop :=
  mkLoop (sched L) (timers L) (nextTimer L) p (nextExec L) (out L)
         (replies L) (faults L) (unhandled L).

(** One event; [None] when the event cannot happen in [L] (a tick of a
    timer that is not set, the settling of an execution not in flight). *)
Definition step (L : Loop) (ev : Event) : option Loop :=
  match ev with
  | CallStart => Some (start L)
  | CallStop => Some (stop L)
  | CallRunOnDemand => Some (spawn Scheduler.runOnDemand L)
  | Tick timer =>
      if existsb (Nat.eqb timer) (timers L)
      then Some (spawn Scheduler.runTask L)
      else None
  | Request req => Some (serve req triggerDataCollection L)
  | Settle x o =>
      match take x (pending L) with
      | None => None
      | Some (e, rest) =>
          let L' := setPending rest L in
          match waiter e with
          | Detached k => Some (settleDetached (advance (k o) (out L')) L')
          | Responding req k => Some (settleResponding req (advance (k o) (out L')) L')
          end
      end
  end.

Fixpoint run (L : Loop) (evs : list Event) : option Loop :=
  match evs with
  | [] => Some L
  | ev :: rest =>
      match step L ev with
      | Some L' => run L' rest
      | None => None
      end
  end.

(** ** The suspended calls of a reachable loop *)

(** What [runTask] does once the task promise has settled. *)
Definition afterTask (o : Outcome) : Async unit :=
  acatch
    (abind (match o with Fulfilled => Ret tt | Rejected e => Throw e end)
           (fun _ => alog "Scheduler: Task completed successfully."))
    (fun error => aerror "Scheduler: Error during scheduled task execution:" error).

Definition ack : Payload :=
  TriggerAck true "Data collection task triggered successfully.".

(** What the handler of [triggerDataCollection] does once the task promise
    has settled. *)
Definition afterTrigger (o : Outcome) : Async Payload :=
  acatch
    (abind (afterTask o) (fun _ => Ret ack))
    (fun error =>
       abind (aerror "[RPC triggerDataCollection] Error:" error) (fun _ =>
       Ret (TriggerAck false (orElse error "Failed to trigger data collection.")))).

Definition succeeded (o : Outcome) : bool :=
  match o with Fulfilled => true | Rejected _ => false end.

(** The line [runTask] logs when the task promise settles. *)
Definition verdict (o : Outcome) : LogLine :=
  match o with
  | Fulfilled => ConsoleLog "Scheduler: Task completed successfully."
  | Rejected e => ConsoleError "Scheduler: Error during scheduled task execution:" e
  end.

(** The request whose handler waits for execution [x], if any. *)
Definition requestOf (x : nat) (L : Loop) : option nat :=
  match take x (pending L) with
  | Some (mkExec _ (Responding req _), _) => Some req
  | _ => None
  end.

Definition goodWaiter (e : Execution) : Prop :=
  waiter e = Detached afterTask \/ exists req, waiter e = Responding req afterTrigger.

(** What holds of the loop after any sequence of events. *)
Record Inv (L : Loop) : Prop := mkInv {
  inv_pending : Forall goodWaiter (pending L);
  inv_timers :
    timers L = match Scheduler.timerId (sched L) with Some t => [t] | None => [] end;
  inv_running :
    Scheduler.isRunning (sched L) =
    match Scheduler.timerId (sched L) with Some _ => true | None => false end;
  inv_unhandled : unhandled L = [];
  inv_faults : faults L = []
}.

End EventLoop.

(* ================================================================== *)
(** * Decimal numerals, sample worlds and the predicates of the statements *)
(* ================================================================== *)

Module Decimals.

(** The decimal digits of an unsigned decimal, most significant first. *)
Fixpoint udigits (d : Decimal.uint) : list Z :=
  match d with
  | Decimal.Nil => []
  | Decimal.D0 r => 0%Z :: udigits r
  | Decimal.D1 r => 1%Z :: udigits r
  | Decimal.D2 r => 2%Z :: udigits r
  | Decimal.D3 r => 3%Z :: udigits r
  | Decimal.D4 r => 4%Z :: udigits r
  | Decimal.D5 r => 5%Z :: udigits r
  | Decimal.D6 r => 6%Z :: udigits r
  | Decimal.D7 r => 7%Z :: udigits r
  | Decimal.D8 r => 8%Z :: udigits r
  | Decimal.D9 r => 9%Z :: udigits r
  end.

Definition digitChar (k : Z) : ascii := ascii_of_nat (48 + Z.to_nat k).

Fixpoint digitString (l : list Z) : string :=
  match l with
  | [] => EmptyString
  | k :: r => String (digitChar k) (digitString r)
  end.

(** The number written by the digits [l] after the number [a]. *)
Fixpoint horner (l : list Z) (a : Z) : Z :=
  match l with
  | [] => a
  | k :: r => horner r (10 * a + k)
  end.

Definition isDigit (k : Z) : Prop := (0 <= k < 10)%Z.

(** Number of characters of the decimal text of [t]. *)
Definition width (t : Z) : nat := String.length (numToString t).

(** The string has no ['/']. *)
Fixpoint slashFree (s : string) : bool :=
  match s with
  | EmptyString => true
  | String c r => negb (Ascii.eqb c "/"%char) && slashFree r
  end.

End Decimals.

Module Cases.

Local Open Scope eff_scope.

Import HyperbeeClient Scenario.

(** A process whose disk lets no Hypercore become ready. *)
Definition brokenDisk : World :=
  mkWorld None 0 (fun p => p) (fun _ => Some "EACCES: permission denied")
          Hyperbee.empty 0 (Ok []) (fun _ => None) [].


(** [a] is not after [b] in time; both timestamps are numbers. *)
Definition tsLe (a b : PriceEntry) : Prop :=
  match p_timestamp a, p_timestamp b with
  | Some x, Some y => (x <= y)%Z
  | _, _ => False
  end.

Definition hasTimestamp (a : PriceEntry) : Prop := p_timestamp a <> None.

End Cases.

Module Domain.

Local Open Scope eff_scope.

Import Hyperbee HyperbeeClient Decimals.

(** Every key of the store under the prefix [series/] is the key of a record
    of [series] whose timestamp is not negative and has [n] digits. *)
Definition uniform (series : string) (n : nat) (b : Hyperbee.t) : Prop :=
  forall e, In e (entries b) ->
            startsWith (key e) (series ++ "/") = true ->
            exists t, key e = keyOf series t /\ (0 <= t)%Z /\ width t = n.

(** The record [getLatestPrice] and [getHistoricalPrices] build for the
    entry stored for [(series, t)]. *)
Definition recordOf (series : string) (t : Z) (v : Value) : PriceEntry :=
  mkPrice series (Some t) (Hyperbee.averagePrice v) (Hyperbee.exchanges v).

(** The store holds [v] for [(series, t)]. *)
Definition holds (b : Hyperbee.t) (series : string) (t : Z) (v : Value) : Prop :=
  In (mkEntry (keyOf series t) v) (entries b).

End Domain.

Module Batch.

Local Open Scope eff_scope.

Import Hyperbee HyperbeeClient Decimals.

(** A data point of the working domain: a pair without ['/'] and a
    timestamp that is not negative and has [n] digits. *)
Definition regular (n : nat) (d : DataPoint) : Prop :=
  slashFree (pair d) = true /\ (0 <= timestamp d)%Z /\ width (timestamp d) = n.

(** [for (const dataPoint of ds) { await savePriceData(db, dataPoint) }] *)
Definition saveAll (db : option Handle) (ds : list DataPoint) : Eff unit :=
  forEach ds (fun dataPoint => savePriceData db dataPoint).

End Batch.

Module Feed.

Local Open Scope eff_scope.

Import HyperbeeClient.

(** The feed resolves a price for the coin. *)
Definition priced (w : World) (coin : Coin) : bool :=
  match priceOf w (id coin) with Some _ => true | None => false end.

(** A world whose feed lists three coins and has no price for the second. *)
Definition threeCoins : World :=
  mkWorld None 0 (fun p => p) (fun _ => None) Hyperbee.empty 1700000000000
          (Ok [mkCoin "bitcoin" "BTC"; mkCoin "nocoin" "NOC"; mkCoin "ethereum" "ETH"])
          (fun i => if String.eqb i "nocoin" then None
                    else Some (Hyperbee.mkValue (QArith_base.Qmake 1 1) ["Binance"]))
          [].

(** [a] was stamped before [b]. *)
Definition stampedBefore (a b : DataPoint) : Prop := (timestamp a < timestamp b)%Z.

End Feed.

Module Traffic.

Import RpcService EventLoop.

Definition isRequest (ev : Event) : bool :=
  match ev with Request _ => true | _ => false end.

(** Number of [triggerDataCollection] requests among the events. *)
Definition requests (evs : list Event) : nat :=
  List.length (filter isRequest evs).

Definition isResponding (e : Execution) : bool :=
  match waiter e with Responding _ _ => true | Detached _ => false end.

(** Number of requests whose handler is waiting for its run. *)
Definition awaiting (L : Loop) : nat :=
  List.length (filter isResponding (pending L)).

End Traffic.

(* ================================================================== *)
(** * read_crypto_db_for_visualization.js *)
(* ================================================================== *)

Module Visualization.

Local Open Scope eff_scope.

Import HyperbeeClient Decimals.

Definition CRYPTO_DATA_DB_PATH : string := "./db/crypto-prices".
Definition OUTPUT_JSON_FILE : string := "./crypto_data_export.json".

(** [hbee.createReadStream()] without bounds, consumed by [for await]. *)
Definition readAll (b : Hyperbee.t) : list Hyperbee.Entry * option Error :=
  match Hyperbee.readFault (Hyperbee.medium b) with
  | Some (n, e) => (firstn n (Hyperbee.entries b), Some e)
  | None => (Hyperbee.entries b, None)
  end.

(** The object pushed for an entry:
    [const [pair, timestampStr] = entry.key.split('/')] and
    [{ pair, timestamp: parseInt(timestampStr), averagePrice, exchanges }].
    The result of [split] is never empty. *)
Definition exported (entry : Hyperbee.Entry) : PriceEntry :=
  let parts := split_slash (Hyperbee.key entry) in
  mkPrice (match Js.index parts 0 with Some pair => pair | None => EmptyString end)
          (parseInt (Js.index parts 1))
          (Hyperbee.averagePrice (Hyperbee.value entry))
          (Hyperbee.exchanges (Hyperbee.value entry)).

(** [async function extractData()].  The script opens the store of the
    server ([bee]) at its path; the value returned stands for what
    [fs.writeFile] puts into the export file, [None] when nothing is
    written; the write itself is taken to succeed. *)
Definition extractData : Eff (option (list PriceEntry)) :=
  r <- tryCatch
         (w <- (fun w => (Ok w, w)) ;;
          consoleLog ("Attempting to read Hyperbee from: "
                        ++ resolve w CRYPTO_DATA_DB_PATH) ;;
          liftResult (match diskFault w (resolve w CRYPTO_DATA_DB_PATH) with
                      | Some e => Raise e
                      | None => Ok tt
                      end) ;;
          consoleLog "Hyperbee database opened successfully." ;;
          s <- (fun w => (Ok (readAll (bee w)), w)) ;;
          match snd s with
          | Some error => throw error
          | None =>
              let allData := map exported (fst s) in
              consoleLog ("Extracted " ++ numToString (Z.of_nat (List.length allData))
                                       ++ " entries.") ;;
              consoleLog ("Data exported to " ++ OUTPUT_JSON_FILE) ;;
              ret (Some allData)
          end)
         (fun error =>
            consoleError "Error extracting data from Hyperbee:" error ;;
            ret None) ;;
  consoleLog "Hyperbee closed." ;;
  ret r.

(** Every key of the store is the key of a record whose pair has no ['/']. *)
Definition keyed (b : Hyperbee.t) : Prop :=
  forall e, In e (Hyperbee.entries b) ->
            exists s t, Hyperbee.key e = keyOf s t /\ slashFree s = true.

End Visualization.

(* ================================================================== *)
(** * src/server.js and src/client.js: the seeds of the network identity *)
(* ================================================================== *)

Module Seeds.

Local Open Scope eff_scope.

(** The metadata Hyperbee ([valueEncoding: 'binary']) and the source of
    random bytes: [store] maps a name to the bytes kept under it, [getFault]
    and [putFault] are the errors with which [get] and [put] reject, if they
    do, [random i] is what the [i]-th call of [crypto.randomBytes(32)]
    returns and [drawn] counts the calls made. *)
Record Meta : Type := mkMeta {
  store : list (string * string);
  getFault : option Error;
  putFault : option Error;
  random : nat -> string;
  drawn : nat;
  lines : list LogLine
}.

(** [(await db.get(name))?.value] *)
Fixpoint get (name : string) (s : list (string * string)) : option string :=
  match s with
  | [] => None
  | (k, v) :: rest => if String.eqb k name then Some v else get name rest
  end.

Fixpoint insert (name : string) (v : string) (s : list (string * string))
  : list (string * string) :=
  match s with
  | [] => [(name, v)]
  | (k, v') :: rest =>
      match String.compare name k with
      | Lt => (name, v) :: (k, v') :: rest
      | Eq => (name, v) :: rest
      | Gt => (k, v') :: insert name v rest
      end
  end.

(** [async function getOrCreateSeed(db, seedName)] of server.js;
    [getOrCreateClientDhtSeed(db)] of client.js is the same function at the
    name ['dht-seed']. *)
(** What the two functions share: [label] is the line logged after a new
    seed has been stored. *)
Definition seedOf (seedName : string) (label : string) (m : Meta) : Result string * Meta :=
  match getFault m with
  | Some e => (Raise e, m)
  | None =>
      match get seedName (store m) with
      | Some seed => (Ok seed, m)
      | None =>
          let seed := random m (drawn m) in
          match putFault m with
          | Some e =>
              (Raise e,
               mkMeta (store m) (getFault m) (putFault m) (random m) (S (drawn m))
                      (lines m))
          | None =>
              (Ok seed,
               mkMeta (insert seedName seed (store m)) (getFault m) (putFault m)
                      (random m) (S (drawn m))
                      (lines m ++ [ConsoleLog label])%list)
          end
      end
  end.

Definition getOrCreateSeed (seedName : string) : Meta -> Result string * Meta :=
  seedOf seedName ("Generated and stored new seed for " ++ seedName).

Definition getOrCreateClientDhtSeed : Meta -> Result string * Meta :=
  seedOf "dht-seed" "Client: Generated and stored new DHT seed.".

(** A new metadata store. *)
Definition firstBoot : Meta :=
  mkMeta [] None None (fun i => if Nat.eqb i 0 then "seed-0" else "seed-1") 0 [].

End Seeds.

(* ================================================================== *)
(** * Facts on the byte order of keys *)
(* ================================================================== *)

Module KeyOrder.

Import Hyperbee.

Lemma lt_trans (a b c : string) : before a b -> before b c -> before a c.
Proof.
  unfold before. intros Hab Hbc.
  apply String_as_OT.cmp_lt.
  apply String_as_OT.lt_trans with b; apply String_as_OT.cmp_lt; assumption.
Qed.

Lemma compare_refl (a : string) : String.compare a a = Eq.
Proof. apply String_as_OT.cmp_eq. reflexivity. Qed.

Lemma lt_irrefl (a : string) : ~ before a a.
Proof. unfold before. rewrite compare_refl. discriminate. Qed.

Lemma leb_refl (a : string) : String.leb a a = true.
Proof. unfold String.leb. now rewrite compare_refl. Qed.


Lemma lt_not_leb (a b : string) : before a b -> String.leb b a = false.
Proof.
  unfold before, String.leb. intros H.
  rewrite String.compare_antisym, H. reflexivity.
Qed.

Lemma gt_lt (a b : string) : String.compare a b = Gt -> before b a.
Proof.
  unfold before. intros H. rewrite String.compare_antisym, H. reflexivity.
Qed.

Lemma compare_append (p a b : string) :
  String.compare (p ++ a) (p ++ b) = String.compare a b.
Proof.
  induction p as [|c p IH]; simpl; [reflexivity|].
  assert (Hc : Ascii.compare c c = Eq) by (apply Ascii_as_OT.cmp_eq; reflexivity).
  now rewrite Hc.
Qed.

Lemma append_assoc (a b c : string) : (a ++ b) ++ c = a ++ (b ++ c).
Proof. induction a as [|x a IH]; simpl; [reflexivity | now rewrite IH]. Qed.

Lemma leb_append (p r : string) : String.leb p (p ++ r) = true.
Proof.
  unfold String.leb.
  induction p as [|c p IH]; simpl.
  - now destruct r.
  - assert (Hc : Ascii.compare c c = Eq) by (apply Ascii_as_OT.cmp_eq; reflexivity).
    now rewrite Hc.
Qed.

(** A key between [p] and [p ++ r] starts with [p]. *)
Lemma between_prefix (p r x : string) :
  String.leb p x = true -> String.leb x (p ++ r) = true -> startsWith x p = true.
Proof.
  unfold startsWith, String.leb. revert x.
  induction p as [|c p IH]; intros x Hlo Hhi.
  - now destruct x.
  - destruct x as [|d x]; [discriminate Hlo|].
    simpl in Hlo, Hhi. simpl.
    destruct (Ascii.compare c d) eqn:Hcd.
    + apply Ascii_as_OT.cmp_eq in Hcd. subst d.
      destruct (ascii_dec c c) as [_|N]; [|now elim N].
      assert (Hc : Ascii.compare c c = Eq) by (apply Ascii_as_OT.cmp_eq; reflexivity).
      rewrite Hc in Hhi. now apply IH.
    + rewrite Ascii.compare_antisym, Hcd in Hhi. discriminate Hhi.
    + discriminate Hlo.
Qed.

(** The decimal text of an integer starts with a digit or a minus sign. *)
Lemma numToString_head (t : Z) :
  exists c r, numToString t = String c r /\ nat_of_ascii c < 195.
Proof.
  unfold numToString, NilZero.string_of_int.
  assert (U : forall d, exists c r,
             NilZero.string_of_uint d = String c r /\ nat_of_ascii c < 195).
  { intros d. unfold NilZero.string_of_uint.
    destruct d; simpl; eexists; eexists;
      (split; [reflexivity | apply Nat.ltb_lt; reflexivity]). }
  destruct (Z.to_int t) as [d|d].
  - apply U.
  - exists "-"%char. eexists. split; [reflexivity | apply Nat.ltb_lt; reflexivity].
Qed.

Lemma numToString_below_xff (t : Z) : String.leb (numToString t) xff = true.
Proof.
  destruct (numToString_head t) as (c & r & -> & Hc).
  assert (H : Ascii.compare c (ascii_of_nat 195) = Lt).
  { apply Ascii_as_OT.cmp_lt_nat. rewrite nat_ascii_embedding; lia. }
  unfold String.leb, xff. cbn [String.compare]. now rewrite H.
Qed.

End KeyOrder.

(* ================================================================== *)
(** * Facts on the store *)
(* ================================================================== *)

Module StoreFacts.

Import Hyperbee HyperbeeClient.

Lemma wf_empty : wf Hyperbee.empty.
Proof. constructor. Qed.

Lemma insert_above (k : string) (v : Value) (e0 : Entry) (es : list Entry) :
  before (key e0) k ->
  Forall (keyLt e0) es ->
  Forall (keyLt e0) (insert k v es).
Proof.
  intros Hk. induction es as [|e es IH]; intros Hall; simpl.
  - constructor; [exact Hk | constructor].
  - inversion Hall as [|? ? He Hes]; subst.
    destruct (String.compare k (key e)).
    + constructor; [exact Hk | exact Hes].
    + constructor; [exact Hk | exact Hall].
    + constructor; [exact He | now apply IH].
Qed.

Lemma insert_sorted (k : string) (v : Value) (es : list Entry) :
  StronglySorted keyLt es -> StronglySorted keyLt (insert k v es).
Proof.
  induction es as [|e es IH]; intros Hs; simpl.
  - repeat constructor.
  - inversion Hs as [|? ? Hes Hall]; subst.
    destruct (String.compare k (key e)) eqn:Hc.
    + apply String.compare_eq_iff in Hc. subst k.
      constructor; [exact Hes | exact Hall].
    + constructor; [exact Hs|].
      constructor; [exact Hc|].
      eapply Forall_impl; [|exact Hall].
      intros a Ha. eapply KeyOrder.lt_trans; [exact Hc | exact Ha].
    + constructor; [now apply IH|].
      apply insert_above; [now apply KeyOrder.gt_lt | exact Hall].
Qed.

Lemma wf_put (k : string) (v : Value) (b : Hyperbee.t) :
  wf b -> wf (snd (Hyperbee.put k v b)).
Proof.
  unfold wf, Hyperbee.put. intros H.
  destruct (writeFault (medium b)); simpl; [exact H | now apply insert_sorted].
Qed.

(** No entry of a list whose keys all lie above [hi] is in a range that
    ends at [hi]. *)
Lemma filter_above (o : ReadOptions) (es : list Entry) :
  Forall (fun e => before (lte o) (key e)) es ->
  filter (inRange o) es = [].
Proof.
  induction 1 as [|e es He _ IH]; simpl; [reflexivity|].
  unfold inRange at 1. rewrite (KeyOrder.lt_not_leb _ _ He), andb_false_r.
  exact IH.
Qed.

(** After [put k v], the range [[k, k]] holds the written entry and
    nothing else. *)
Lemma filter_exact (k : string) (v : Value) (rv : bool) (lim : option nat)
    (es : list Entry) :
  StronglySorted keyLt es ->
  filter (inRange (mkOpts k k rv lim)) (insert k v es) = [mkEntry k v].
Proof.
  induction es as [|e es IH]; intros Hs; simpl.
  - unfold inRange; simpl. now rewrite KeyOrder.leb_refl.
  - inversion Hs as [|? ? Hes Hall]; subst.
    destruct (String.compare k (key e)) eqn:Hc; simpl.
    + apply String.compare_eq_iff in Hc. subst k.
      unfold inRange at 1; simpl. rewrite KeyOrder.leb_refl; simpl.
      f_equal. apply filter_above. exact Hall.
    + unfold inRange at 1; simpl. rewrite KeyOrder.leb_refl; simpl.
      f_equal.
      change (filter (inRange (mkOpts k k rv lim)) (e :: es) = []).
      apply filter_above. simpl.
      constructor; [exact Hc|].
      eapply Forall_impl; [|exact Hall].
      intros a Ha. eapply KeyOrder.lt_trans; [exact Hc | exact Ha].
    + unfold inRange at 1; simpl.
      rewrite (KeyOrder.lt_not_leb _ _ (KeyOrder.gt_lt _ _ Hc)). simpl.
      now apply IH.
Qed.

(** After [put k v], the written entry is the last one of any range that
    contains [k] and in which no older entry has a key above [k]. *)
Lemma filter_last (o : ReadOptions) (k : string) (v : Value) (es : list Entry) :
  StronglySorted keyLt es ->
  inRange o (mkEntry k v) = true ->
  (forall e, In e es -> inRange o e = true -> String.leb (key e) k = true) ->
  exists older, filter (inRange o) (insert k v es) = (older ++ [mkEntry k v])%list.
Proof.
  intros Hs Hk. induction es as [|e es IH]; intros Hmax; simpl.
  - exists []. now rewrite Hk.
  - inversion Hs as [|? ? Hes Hall]; subst.
    assert (Hout : forall l, Forall (fun a => before k (key a)) l ->
                             (forall a, In a l -> In a (e :: es)) ->
                             filter (inRange o) l = []).
    { intros l Hl Hsub. induction l as [|a l IHl]; simpl; [reflexivity|].
      inversion Hl as [|? ? Ha Hl']; subst.
      destruct (inRange o a) eqn:Hin.
      - apply Hmax in Hin; [|apply Hsub; now left].
        rewrite (KeyOrder.lt_not_leb _ _ Ha) in Hin. discriminate Hin.
      - apply IHl; [exact Hl' | intros b Hb; apply Hsub; now right]. }
    destruct (String.compare k (key e)) eqn:Hc; simpl.
    + apply String.compare_eq_iff in Hc. subst k.
      exists []. rewrite Hk. simpl. f_equal.
      apply Hout; [exact Hall | intros a Ha; now right].
    + exists []. rewrite Hk. simpl. f_equal.
      change (filter (inRange o) (e :: es) = []).
      apply Hout; [|auto].
      constructor; [exact Hc|].
      eapply Forall_impl; [|exact Hall].
      intros a Ha. eapply KeyOrder.lt_trans; [exact Hc | exact Ha].
    + destruct IH as [older Holder]; [exact Hes | |].
      { intros a Ha. apply Hmax. now right. }
      rewrite Holder.
      destruct (inRange o e); [exists (e :: older) | exists older]; reflexivity.
Qed.

(** What [savePriceData] does on a medium that can be written. *)
Lemma savePriceData_healthy (h : Handle) (d : DataPoint) (w : World) :
  writeFault (medium (bee w)) = None ->
  savePriceData (Some h) d w =
  (Ok tt,
   setBee (mkBee (insert (keyOf (pair d) (timestamp d))
                         (mkValue (HyperbeeClient.averagePrice d)
                                  (HyperbeeClient.exchanges d))
                         (entries (bee w)))
                 (S (version (bee w))) (medium (bee w))) w).
Proof.
  intros Hm. unfold savePriceData, tryCatch, dbPut, Hyperbee.put.
  now rewrite Hm.
Qed.

(** What the two readers return on a medium that can be read. *)
Lemma getHistoricalPrices_healthy (h : Handle) (s : string) (from to : Z)
    (w : World) :
  readFault (medium (bee w)) = None ->
  getHistoricalPrices (Some h) s from to w =
  (Ok (sortByTimestamp
         (map (entryOf s)
              (filter (fun entry => startsWith (key entry) (s ++ "/"))
                      (scan (mkOpts (keyOf s from) (keyOf s to) false None)
                            (entries (bee w)))))), w).
Proof.
  intros Hm.
  unfold getHistoricalPrices, bind, dbStream, createReadStream, ret.
  now rewrite Hm.
Qed.

Lemma getLatestPrice_healthy (h : Handle) (s : string) (w : World) :
  readFault (medium (bee w)) = None ->
  getLatestPrice (Some h) s w =
  (Ok (match scan (mkOpts (s ++ "/") ((s ++ "/") ++ xff) true (Some 1))
                  (entries (bee w)) with
       | entry :: _ => Some (entryOf s entry)
       | [] => None
       end), w).
Proof.
  intros Hm.
  unfold getLatestPrice, tryCatch, bind, dbStream, createReadStream, ret.
  rewrite Hm.
  now destruct (scan _ _).
Qed.

(** Writes keep the invariant of the store. *)
Lemma savePriceData_wf (db : option Handle) (d : DataPoint) (w : World) :
  wf (bee w) -> wf (bee (snd (savePriceData db d w))).
Proof.
  intros H. destruct db as [h|]; [|exact H].
  unfold savePriceData, tryCatch, dbPut, consoleError, emit.
  pose proof (wf_put (keyOf (pair d) (timestamp d))
                (mkValue (HyperbeeClient.averagePrice d) (HyperbeeClient.exchanges d))
                (bee w) H) as Hput.
  destruct (Hyperbee.put _ _ (bee w)) as [[u|e] b]; exact Hput.
Qed.

(** On integer bounds the reader of the RPC handler is [getHistoricalPrices]. *)
Lemma getHistoricalPricesOf_integers (db : option Handle) (s : string) (from to : Z) :
  getHistoricalPricesOf db s (Integer from) (Integer to) = getHistoricalPrices db s from to.
Proof. reflexivity. Qed.

Lemma keyOf_prefix (s : string) (t : Z) :
  keyOf s t = (s ++ "/") ++ numToString t.
Proof. unfold keyOf. symmetry. apply KeyOrder.append_assoc. Qed.

(** The key of a record lies inside the range [getLatestPrice] scans. *)
Lemma keyOf_in_latest_range (s : string) (t : Z) (v : Value) :
  inRange (mkOpts (s ++ "/") ((s ++ "/") ++ xff) true (Some 1))
          (mkEntry (keyOf s t) v) = true.
Proof.
  unfold inRange. cbn [gte lte key]. rewrite keyOf_prefix.
  rewrite KeyOrder.leb_append. cbn [andb].
  unfold String.leb. rewrite KeyOrder.compare_append.
  exact (KeyOrder.numToString_below_xff t).
Qed.

Lemma keyOf_startsWith (s : string) (t : Z) :
  startsWith (keyOf s t) (s ++ "/") = true.
Proof.
  rewrite keyOf_prefix.
  apply KeyOrder.between_prefix with (r := numToString t).
  - apply KeyOrder.leb_append.
  - apply KeyOrder.leb_refl.
Qed.

End StoreFacts.

(* ================================================================== *)
(** * Properties of the store client *)
(* ================================================================== *)

Module StoreProps.

Import Hyperbee HyperbeeClient Scenario.

(** C1, on the code: after the writes [(S, 999999999)] and then
    [(S, 1000000000)] to an empty store, [getLatestPrice] returns the record
    written at 999999999, not the one with the greatest timestamp: the key
    ["S/1000000000"] sorts before ["S/999999999"] in byte order, and the
    reverse scan limited to one entry starts from the greatest key. *)
Theorem getLatestPrice_digit_boundary (a1 a2 : Number) (x1 x2 : list string) :
  fst ((savePriceData db0 (mkPoint "S" 999999999 a1 x1 None) ;;
        savePriceData db0 (mkPoint "S" 1000000000 a2 x2 None) ;;
        getLatestPrice db0 "S") freshWorld)
  = Ok (Some (mkPrice "S" (Some 999999999%Z) a1 x1)).
Proof. reflexivity. Qed.

(** C2, on the code: with the records of example scenario 2,
    [("BTC-USDT", 1000)] and [("BTC-USDT", 2000)], the range [[500, 1500]]
    comes back empty although 500 <= 1000 <= 1500 (["BTC-USDT/1000"] sorts
    before the start key ["BTC-USDT/500"]); and the range [[1000, 2000]]
    of a store holding [("BTC-USDT", 15)] returns that record although
    15 < 1000. *)
Theorem getHistoricalPrices_text_order (a1 a2 : Number) (x1 x2 : list string) :
  fst ((savePriceData db0 (mkPoint "BTC-USDT" 1000 a1 x1 None) ;;
        savePriceData db0 (mkPoint "BTC-USDT" 2000 a2 x2 None) ;;
        getHistoricalPrices db0 "BTC-USDT" 500 1500) freshWorld)
  = Ok []
  /\
  fst ((savePriceData db0 (mkPoint "BTC-USDT" 15 a1 x1 None) ;;
        getHistoricalPrices db0 "BTC-USDT" 1000 2000) freshWorld)
  = Ok [mkPrice "BTC-USDT" (Some 15%Z) a1 x1].
Proof. split; reflexivity. Qed.

(** C5, as stated, fails: on a medium that cannot be written,
    [savePriceData] does not fail; its caller sees a normal return. *)
Lemma write_fault_not_surfaced :
  ~ (forall (w : World) (h : Handle) (d : DataPoint) (e : Error),
       writeFault (medium (bee w)) = Some e ->
       exists e', fst (savePriceData (Some h) d w) = Raise e').
Proof.
  intros H.
  destruct (H readOnly (mkHandle 0 "./db/crypto-prices")
              (mkPoint "BTC-USDT" 1000 (QArith_base.Qmake 50000 1) ["A"; "B"] None)
              "EIO: i/o error" eq_refl) as [e' He'].
  discriminate He'.
Qed.

(** C5, amended: [savePriceData] returns normally with no value whether or
    not the medium can be written.  When [db.put] rejects, the error is
    caught and logged and the store is left as it was; otherwise the record
    is stored under its key.  The only error the caller can observe is the
    one thrown for a missing [db]. *)
Theorem savePriceData_outcome (w : World) (h : Handle) (d : DataPoint) :
  let k := keyOf (pair d) (timestamp d) in
  let v := mkValue (HyperbeeClient.averagePrice d) (HyperbeeClient.exchanges d) in
  let r := savePriceData (Some h) d w in
  fst r = Ok tt
  /\ match writeFault (medium (bee w)) with
     | Some e =>
         bee (snd r) = bee w
         /\ console (snd r) =
            (console w ++ [ConsoleError ("Error saving data for " ++ k ++ ":") e])%list
     | None =>
         bee (snd r) = mkBee (insert k v (entries (bee w)))
                             (S (version (bee w))) (medium (bee w))
         /\ console (snd r) = console w
     end
  /\ savePriceData None d w =
     (Raise "Hyperbee instance is not initialized. Call initDB first.", w).
Proof.
  cbv zeta.
  unfold savePriceData, tryCatch, dbPut, Hyperbee.put, consoleError, emit.
  destruct (writeFault (medium (bee w))) as [e|]; simpl; repeat split.
Qed.

(** Reading back what was written, where the code does it: in every store,
    [getHistoricalPrices(series, t, t)] after the write returns exactly one
    record, with the [averagePrice] and the [exchanges] written;
    [getLatestPrice(series)] returns it when no record of the series
    already stored has a key above the written one in byte order. *)
Theorem put_then_read_roundtrip (w : World) (h : Handle) (s : string) (t : Z)
    (a : Number) (x : list string) (cg : option string) :
  wf (bee w) ->
  medium (bee w) = healthy ->
  let w1 := snd (savePriceData (Some h) (mkPoint s t a x cg) w) in
  (exists r, fst (getHistoricalPrices (Some h) s t t w1) = Ok [r]
             /\ p_pair r = s /\ p_averagePrice r = a /\ p_exchanges r = x)
  /\
  ((forall e, In e (entries (bee w)) ->
              startsWith (key e) (s ++ "/") = true ->
              String.leb (key e) (keyOf s t) = true) ->
   exists r, fst (getLatestPrice (Some h) s w1) = Ok (Some r)
             /\ p_pair r = s /\ p_averagePrice r = a /\ p_exchanges r = x).
Proof.
  intros Hwf Hm. cbv zeta.
  rewrite StoreFacts.savePriceData_healthy by (now rewrite Hm).
  cbn [snd pair timestamp HyperbeeClient.averagePrice HyperbeeClient.exchanges].
  split.
  - rewrite StoreFacts.getHistoricalPrices_healthy by (cbn; now rewrite Hm).
    cbn [fst bee setBee entries]. unfold scan. cbn [reverse limit].
    rewrite StoreFacts.filter_exact by exact Hwf.
    cbn [filter key]. rewrite StoreFacts.keyOf_startsWith.
    eexists. split; [reflexivity|]. now cbn.
  - intros Hlast.
    rewrite StoreFacts.getLatestPrice_healthy by (cbn; now rewrite Hm).
    cbn [fst bee setBee entries]. unfold scan. cbn [reverse limit].
    destruct (StoreFacts.filter_last
                (mkOpts (s ++ "/") ((s ++ "/") ++ xff) true (Some 1))
                (keyOf s t) (mkValue a x) (entries (bee w)) Hwf
                (StoreFacts.keyOf_in_latest_range s t (mkValue a x)))
      as [older Holder].
    { intros e He Hin. apply Hlast; [exact He|].
      unfold inRange in Hin. cbn [gte lte] in Hin.
      apply andb_true_iff in Hin. destruct Hin as [Hlo Hhi].
      eapply KeyOrder.between_prefix; eassumption. }
    rewrite Holder, rev_app_distr. cbn [rev app firstn].
    eexists. split; [reflexivity|]. now cbn.
Qed.

Lemma put_then_read_roundtrip_witness :
  let w1 := snd (savePriceData db0
                   (mkPoint "BTC-USDT" 2000 (QArith_base.Qmake 51000 1) ["C"] None)
                   oneRecord) in
  (exists r, fst (getHistoricalPrices db0 "BTC-USDT" 2000 2000 w1) = Ok [r]
             /\ p_pair r = "BTC-USDT"
             /\ p_averagePrice r = QArith_base.Qmake 51000 1
             /\ p_exchanges r = ["C"])
  /\
  (exists r, fst (getLatestPrice db0 "BTC-USDT" w1) = Ok (Some r)
             /\ p_pair r = "BTC-USDT"
             /\ p_averagePrice r = QArith_base.Qmake 51000 1
             /\ p_exchanges r = ["C"]).
Proof.
  destruct (put_then_read_roundtrip oneRecord (mkHandle 0 "./db/crypto-prices")
              "BTC-USDT" 2000 (QArith_base.Qmake 51000 1) ["C"] None)
    as [Hrange Hlatest].
  - repeat constructor.
  - reflexivity.
  - split; [exact Hrange|].
    apply Hlatest.
    intros e [<-|[]] _. reflexivity.
Defined.

(** C6, on the code: after the record [(S, 999999999)] has been stored,
    writing [(S, 1000000000)] with another value and other sources and
    reading it back at once gives the written value and sources through
    [getHistoricalPrices(S, 1000000000, 1000000000)], but through
    [getLatestPrice(S)] it gives the value and the sources of the older
    record: the written key ["S/1000000000"] sorts before ["S/999999999"],
    so the written record is not the one the reverse scan meets first. *)
Theorem read_back_at_digit_boundary (a1 a2 : Number) (x1 x2 : list string) :
  let stored :=
    snd (savePriceData db0 (mkPoint "S" 999999999 a1 x1 None) freshWorld) in
  let written :=
    snd (savePriceData db0 (mkPoint "S" 1000000000 a2 x2 None) stored) in
  fst (getHistoricalPrices db0 "S" 1000000000 1000000000 written)
  = Ok [mkPrice "S" (Some 1000000000%Z) a2 x2]
  /\
  fst (getLatestPrice db0 "S" written)
  = Ok (Some (mkPrice "S" (Some 999999999%Z) a1 x1)).
Proof. split; reflexivity. Qed.

(** C10: the store handle is a singleton of the module.  Once a call of
    [initDB] has returned an instance, every later call returns that same
    instance, whatever [storagePath] it is given, and changes nothing (no
    new instance, no log line). *)
Theorem initDB_singleton (w w1 : World) (p1 : option string) (h : Handle) :
  initDB p1 w = (Ok h, w1) ->
  forall p2 : option string, initDB p2 w1 = (Ok h, w1).
Proof.
  unfold initDB. intros H p2.
  destruct (hbee w) as [h0|] eqn:Hh.
  - injection H as <- <-. now rewrite Hh.
  - destruct (diskFault w _) as [e|]; [discriminate H|].
    injection H as <- <-. reflexivity.
Qed.

Lemma initDB_singleton_witness :
  initDB (Some "./db/other")
         (snd (initDB (Some "./db/crypto-prices") freshWorld))
  = (Ok (mkHandle 0 "./db/crypto-prices"),
     snd (initDB (Some "./db/crypto-prices") freshWorld)).
Proof.
  apply (initDB_singleton freshWorld _ (Some "./db/crypto-prices")).
  reflexivity.
Defined.

End StoreProps.

(* ================================================================== *)
(** * Properties of the ingestion task *)
(* ================================================================== *)

Module IngestionProps.

Import HyperbeeClient Coingecko.

Lemma fetchLoop_sameFeed (coins : list Coin) :
  forall (results : list DataPoint) (w1 w2 : World),
    sameFeed w1 w2 ->
    fst (fetchLoop coins results w1) = fst (fetchLoop coins results w2).
Proof.
  induction coins as [|coin rest IH]; intros results w1 w2 (Hm & Hp & Hc).
  - reflexivity.
  - cbn [fetchLoop].
    unfold bind, consoleLog, consoleWarn, emit, getAveragePrice, dateNow, sleep, ret.
    cbn [priceOf setConsole clock].
    rewrite Hp.
    destruct (priceOf w2 (id coin)) as [pd|]; cbn [clock setConsole]; rewrite Hc;
      apply IH; repeat split; cbn; congruence.
Qed.

Lemma fetchTopCryptoData_sameFeed (w1 w2 : World) :
  sameFeed w1 w2 ->
  fst (fetchTopCryptoData w1) = fst (fetchTopCryptoData w2).
Proof.
  intros H. pose proof H as (Hm & Hp & Hc).
  unfold fetchTopCryptoData, bind, getTopCoins, tryCatch, consoleError,
    consoleLog, emit, ret.
  rewrite Hm.
  destruct (markets w2) as [[|c cs]|e]; cbv beta iota; try reflexivity.
  apply fetchLoop_sameFeed. exact H.
Qed.

(** The feed client never touches the store. *)
Lemma fetchLoop_bee (coins : list Coin) :
  forall (results : list DataPoint) (w : World),
    bee (snd (fetchLoop coins results w)) = bee w.
Proof.
  induction coins as [|coin rest IH]; intros results w.
  - reflexivity.
  - cbn [fetchLoop].
    unfold bind, consoleLog, consoleWarn, emit, getAveragePrice, dateNow, sleep, ret.
    cbn [priceOf setConsole].
    destruct (priceOf w (id coin)) as [pd|]; rewrite IH; reflexivity.
Qed.

Lemma fetchTopCryptoData_bee (w : World) :
  bee (snd (fetchTopCryptoData w)) = bee w.
Proof.
  unfold fetchTopCryptoData, bind, getTopCoins, tryCatch, consoleError,
    consoleLog, emit, ret.
  destruct (markets w) as [[|c cs]|e]; cbv beta iota; try reflexivity.
  apply fetchLoop_bee.
Qed.

(** A feed that lists no coin, or that cannot be reached, yields no
    instrument. *)
Lemma fetchTopCryptoData_no_coins (w : World) :
  markets w = Ok [] \/ (exists e, markets w = Raise e) ->
  fst (fetchTopCryptoData w) = Ok [].
Proof.
  unfold fetchTopCryptoData, bind, getTopCoins, tryCatch, consoleError,
    consoleLog, emit, ret.
  intros [H|[e H]]; rewrite H; reflexivity.
Qed.

(** C8: when the feed returns an empty list of instruments, a run of the
    ingestion task takes the branch that only logs: it is the sequence
    "log, fetch, log" with no call of [savePriceData] and no error caught,
    it returns normally, and the store (its entries and its count of
    writes) is the one before the run. *)
Theorem empty_feed_is_noop (w : World) (cryptoDB : option Handle) :
  fst (fetchTopCryptoData w) = Ok [] ->
  Server.dataCollectionTask cryptoDB w =
    (consoleLog "Running data collection task..." ;;
     fetchTopCryptoData ;;
     consoleLog "No new crypto data fetched.") w
  /\ fst (Server.dataCollectionTask cryptoDB w) = Ok tt
  /\ bee (snd (Server.dataCollectionTask cryptoDB w)) = bee w.
Proof.
  intros Hfeed.
  set (w1 := snd (consoleLog "Running data collection task..." w)).
  assert (H1 : fst (fetchTopCryptoData w1) = Ok []).
  { rewrite <- Hfeed. apply fetchTopCryptoData_sameFeed. repeat split. }
  assert (Hb : bee (snd (fetchTopCryptoData w1)) = bee w)
    by (rewrite fetchTopCryptoData_bee; reflexivity).
  assert (E : Server.dataCollectionTask cryptoDB w =
              (consoleLog "Running data collection task..." ;;
               fetchTopCryptoData ;;
               consoleLog "No new crypto data fetched.") w).
  { unfold Server.dataCollectionTask, bind, tryCatch.
    change (consoleLog "Running data collection task..." w) with (Ok tt, w1).
    cbv beta iota.
    destruct (fetchTopCryptoData w1) as [r w2]. cbn [fst] in H1. subst r.
    reflexivity. }
  split; [exact E|].
  rewrite E. unfold bind.
  change (consoleLog "Running data collection task..." w) with (Ok tt, w1).
  cbv beta iota.
  destruct (fetchTopCryptoData w1) as [r w2]. cbn [fst snd] in H1, Hb. subst r.
  split; [reflexivity | exact Hb].
Qed.

Lemma empty_feed_is_noop_witness :
  fst (Server.dataCollectionTask Scenario.db0 Scenario.oneRecord) = Ok tt
  /\ bee (snd (Server.dataCollectionTask Scenario.db0 Scenario.oneRecord))
     = bee Scenario.oneRecord.
Proof.
  apply (empty_feed_is_noop Scenario.oneRecord Scenario.db0).
  reflexivity.
Defined.

End IngestionProps.

(* ================================================================== *)
(** * Properties of the query handlers *)
(* ================================================================== *)

Module QueryProps.

Import HyperbeeClient RpcService.

Lemma getLatestPrice_returns (h : Handle) (s : string) (w : World) :
  exists r w', getLatestPrice (Some h) s w = (Ok r, w').
Proof.
  unfold getLatestPrice, tryCatch, bind, dbStream, ret, throw, consoleError, emit.
  destruct (Hyperbee.createReadStream _ _) as [[|e es] [err|]]; eauto.
Qed.

Lemma getHistoricalPricesOf_returns (h : Handle) (s : string)
    (from to : JsNumber) (w : World) :
  exists r w', HyperbeeClient.getHistoricalPricesOf (Some h) s from to w = (Ok r, w').
Proof.
  unfold HyperbeeClient.getHistoricalPricesOf, bind, dbStream, ret, consoleError, emit.
  cbn [fst snd].
  destruct (snd (Hyperbee.createReadStream _ _)); eauto.
Qed.


Lemma historicalLoop_returns (h : Handle) (from to : JsNumber) (pairs : list Json) :
  forall results w, exists m w',
    historicalLoop h from to pairs results w = (Ok (HistoricalPrices m), w').
Proof.
  induction pairs as [|p ps IH]; intros results w; cbn [historicalLoop].
  - unfold ret. eauto.
  - unfold bind.
    destruct (getHistoricalPricesOf_returns h (toStr p) from to w) as (r & w1 & ->).
    apply IH.
Qed.

Lemma orElse_nonempty (m fallback : string) :
  fallback <> "" -> orElse m fallback <> "".
Proof. destruct m; simpl; [auto | discriminate]. Qed.



(** A request that conforms to the schema of the specification passes the
    tests of the handlers. *)
Lemma conforms_passes (parsed : Result Json) :
  (conformsLatest parsed = true -> passesLatest parsed = true)
  /\ (conformsHistorical parsed = true -> passesHistorical parsed = true).
Proof.
  unfold conformsLatest, conformsHistorical, passesLatest, passesHistorical,
    fieldIs, hasPairsList, hasNumber.
  destruct parsed as [[| b | n | s | items | fields]|e]; try (split; discriminate).
  destruct (lookup "pairs" fields) as [[| b | n | s | items | fs]|];
    try (split; discriminate).
  split; [reflexivity|]. cbn [isStringList andb].
  destruct (lookup "from" fields) as [[| b1 | [z1|t1] | s1 | i1 | f1]|];
    destruct (lookup "to" fields) as [[| b2 | [z2|t2] | s2 | i2 | f2]|];
    cbn [isInt64 andb]; intros H; try reflexivity;
    rewrite ?andb_false_r in H; discriminate H.
Qed.



End QueryProps.

(* ================================================================== *)
(** * Properties of the scheduler *)
(* ================================================================== *)

Module SchedulerProps.

Import RpcService EventLoop.

Lemma advance_runTask (o : list LogLine) :
  advance Scheduler.runTask o =
  (Suspended afterTask, (o ++ [ConsoleLog "Scheduler: Executing scheduled task..."])%list).
Proof. reflexivity. Qed.

Lemma advance_runOnDemand (o : list LogLine) :
  advance Scheduler.runOnDemand o =
  (Suspended afterTask,
   ((o ++ [ConsoleLog "Scheduler: Executing task on demand..."])
      ++ [ConsoleLog "Scheduler: Executing scheduled task..."])%list).
Proof. reflexivity. Qed.

Lemma advance_trigger (o : list LogLine) :
  advance triggerDataCollection o =
  (Suspended afterTrigger,
   (((o ++ [ConsoleLog "[RPC triggerDataCollection] Received request."])
       ++ [ConsoleLog "Scheduler: Executing task on demand..."])
      ++ [ConsoleLog "Scheduler: Executing scheduled task..."])%list).
Proof. reflexivity. Qed.

Lemma advance_afterTask (out : Outcome) (o : list LogLine) :
  advance (afterTask out) o = (Done tt, (o ++ [verdict out])%list).
Proof. destruct out; reflexivity. Qed.

Lemma advance_afterTrigger (out : Outcome) (o : list LogLine) :
  advance (afterTrigger out) o = (Done ack, (o ++ [verdict out])%list).
Proof. destruct out; reflexivity. Qed.

Lemma take_some (x : nat) (l : list Execution) :
  In x (map exec l) -> exists e rest, take x l = Some (e, rest).
Proof.
  induction l as [|e l IH]; simpl; [intros []|].
  intros [<-|H].
  - rewrite Nat.eqb_refl. eauto.
  - destruct (Nat.eqb (exec e) x); [eauto|].
    destruct (IH H) as (f & rest & ->). eauto.
Qed.

Lemma take_spec (x : nat) (l : list Execution) (e : Execution) (rest : list Execution) :
  take x l = Some (e, rest) ->
  In e l /\ List.length l = S (List.length rest)
  /\ (forall P, Forall P l -> Forall P rest).
Proof.
  revert e rest. induction l as [|a l IH]; simpl; intros e rest H; [discriminate H|].
  destruct (Nat.eqb (exec a) x).
  - injection H as <- <-. split; [now left | split; [reflexivity|]].
    intros P HP. now inversion HP.
  - destruct (take x l) as [[f rest']|] eqn:Ht; [|discriminate H].
    injection H as <- <-.
    destruct (IH f rest' eq_refl) as (Hin & Hlen & Hall).
    split; [now right | split].
    + simpl. now rewrite Hlen.
    + intros P HP. inversion HP; subst. constructor; auto.
Qed.

Lemma take_in (x : nat) (l : list Execution) (e : Execution) (rest : list Execution) :
  take x l = Some (e, rest) -> In x (map exec l).
Proof.
  revert e rest. induction l as [|a l IH]; simpl; intros e rest H; [discriminate H|].
  destruct (Nat.eqb (exec a) x) eqn:Ha.
  - left. now apply Nat.eqb_eq.
  - right. destruct (take x l) as [[f r]|]; [|discriminate H].
    eapply IH. reflexivity.
Qed.

Lemma Inv_boot (i : Z) : Inv (boot i).
Proof. constructor; simpl; auto. Qed.

Lemma Inv_step (L L' : Loop) (ev : Event) :
  Inv L -> step L ev = Some L' -> Inv L'.
Proof.
  intros [Hp Ht Hr Hu Hf] H.
  destruct ev as [| | | timer | req | x o]; simpl in H.
  - (* start *)
    injection H as <-. unfold start.
    destruct (Scheduler.isRunning (sched L)) eqn:Hrun.
    + constructor; simpl; auto; try congruence.
    + unfold spawn. rewrite advance_runTask.
      destruct (Scheduler.timerId (sched L)) eqn:Hid; [discriminate Hr|].
      constructor; simpl; auto.
      * apply Forall_app. split; [exact Hp|].
        constructor; [now left | constructor].
      * now rewrite Ht.
  - (* stop *)
    injection H as <-. unfold stop.
    destruct (Scheduler.isRunning (sched L)) eqn:Hrun; simpl.
    + constructor; simpl; auto; try congruence.
      rewrite Ht. destruct (Scheduler.timerId (sched L)) as [t|]; simpl; auto.
      now rewrite Nat.eqb_refl.
    + constructor; simpl; auto; try congruence.
  - (* runOnDemand *)
    injection H as <-. unfold spawn. rewrite advance_runOnDemand.
    constructor; simpl; auto; try congruence.
    apply Forall_app. split; [exact Hp|]. constructor; [now left | constructor].
  - (* tick *)
    destruct (existsb (Nat.eqb timer) (timers L)); [|discriminate H].
    injection H as <-. unfold spawn. rewrite advance_runTask.
    constructor; simpl; auto; try congruence.
    apply Forall_app. split; [exact Hp|]. constructor; [now left | constructor].
  - (* request *)
    injection H as <-. unfold serve. rewrite advance_trigger.
    constructor; simpl; auto; try congruence.
    apply Forall_app. split; [exact Hp|].
    constructor; [right; exists req; reflexivity | constructor].
  - (* settle *)
    destruct (take x (pending L)) as [[e rest]|] eqn:Hx; [|discriminate H].
    destruct (take_spec _ _ _ _ Hx) as (Hin & _ & Hall).
    assert (He : goodWaiter e) by (rewrite Forall_forall in Hp; auto).
    destruct He as [He|[req He]]; rewrite He in H; injection H as <-.
    + simpl. rewrite advance_afterTask. constructor; simpl; auto; try congruence.
    + simpl. rewrite advance_afterTrigger. constructor; simpl; auto; try congruence.
Qed.

Lemma Inv_run (evs : list Event) :
  forall L L', Inv L -> run L evs = Some L' -> Inv L'.
Proof.
  induction evs as [|ev evs IH]; simpl; intros L L' HI H.
  - now injection H as <-.
  - destruct (step L ev) as [L1|] eqn:Hs; [|discriminate H].
    eapply IH; [|exact H]. eapply Inv_step; eassumption.
Qed.

Lemma reachable_Inv (i : Z) (evs : list Event) (L : Loop) :
  run (boot i) evs = Some L -> Inv L.
Proof. apply Inv_run, Inv_boot. Qed.

(** The step that settles an execution in flight, spelled out. *)
Lemma settle_step (L : Loop) (x : nat) (o : Outcome) :
  Inv L -> In x (map exec (pending L)) ->
  exists e rest L',
    take x (pending L) = Some (e, rest)
    /\ step L (Settle x o) = Some L'
    /\ sched L' = sched L /\ timers L' = timers L
    /\ pending L' = rest
    /\ out L' = (out L ++ [verdict o])%list
    /\ unhandled L' = [] /\ faults L' = []
    /\ replies L' = match waiter e with
                    | Responding req _ => (replies L ++ [(req, ack)])%list
                    | Detached _ => replies L
                    end.
Proof.
  intros [Hp Ht Hr Hu Hf] Hx.
  destruct (take_some _ _ Hx) as (e & rest & Htake).
  destruct (take_spec _ _ _ _ Htake) as (Hin & _ & _).
  assert (He : goodWaiter e) by (rewrite Forall_forall in Hp; auto).
  exists e, rest. simpl. rewrite Htake.
  destruct He as [He|[req He]]; rewrite He; simpl.
  - rewrite advance_afterTask. eexists. split; [reflexivity|].
    split; [reflexivity|]. simpl. repeat split; auto.
  - rewrite advance_afterTrigger. eexists. split; [reflexivity|].
    split; [reflexivity|]. simpl. repeat split; auto.
Qed.

(** C3, as stated, fails: the first run made by [start] and a
    [triggerDataCollection] request that arrives before it has finished are
    two executions in flight. *)
Lemma single_flight_fails :
  ~ (forall (evs : list Event) (L : Loop),
       run (boot Server.FETCH_INTERVAL_MS) evs = Some L -> inFlight L <= 1).
Proof.
  intros H.
  specialize (H [CallStart; Request 0] _ eq_refl).
  vm_compute in H. lia.
Qed.

(** C3, amended: in every reachable state at most one interval timer is
    set, but executions of the task are not single-flight.  Every tick of
    the timer and every on-demand trigger (a direct [runOnDemand()] or a
    [triggerDataCollection] request) starts one more execution at once,
    whatever the number already in flight; [start] does so unless the
    scheduler is already running; [stop] starts and ends none; and an
    execution leaves flight only when its own task promise settles. *)
Theorem each_trigger_starts_an_execution (i : Z) (evs : list Event)
    (L L' : Loop) (ev : Event) :
  run (boot i) evs = Some L ->
  step L ev = Some L' ->
  List.length (timers L) <= 1
  /\ inFlight L' =
     match ev with
     | Tick _ | Request _ | CallRunOnDemand => S (inFlight L)
     | CallStart =>
         if Scheduler.isRunning (sched L) then inFlight L else S (inFlight L)
     | CallStop => inFlight L
     | Settle _ _ => pred (inFlight L)
     end.
Proof.
  intros Hreach Hstep.
  pose proof (reachable_Inv _ _ _ Hreach) as HI.
  split.
  - rewrite (inv_timers _ HI).
    destruct (Scheduler.timerId (sched L)); simpl; lia.
  - unfold inFlight.
    destruct ev as [| | | timer | req | x o].
    + injection Hstep as <-. unfold start.
      destruct (Scheduler.isRunning (sched L)); [reflexivity|].
      unfold spawn. rewrite advance_runTask. simpl.
      rewrite length_app. simpl. lia.
    + injection Hstep as <-. unfold stop.
      destruct (Scheduler.isRunning (sched L)); reflexivity.
    + injection Hstep as <-. unfold spawn. rewrite advance_runOnDemand. simpl.
      rewrite length_app. simpl. lia.
    + simpl in Hstep.
      destruct (existsb (Nat.eqb timer) (timers L)); [|discriminate Hstep].
      injection Hstep as <-. unfold spawn. rewrite advance_runTask. simpl.
      rewrite length_app. simpl. lia.
    + injection Hstep as <-. unfold serve. rewrite advance_trigger. simpl.
      rewrite length_app. simpl. lia.
    + assert (Hx : In x (map exec (pending L))).
      { simpl in Hstep.
        destruct (take x (pending L)) as [[e rest]|] eqn:Hx; [|discriminate Hstep].
        eapply take_in. exact Hx. }
      destruct (settle_step L x o HI Hx)
        as (e & rest & L1 & Ht & Hs & _ & _ & Hp & _).
      rewrite Hs in Hstep. injection Hstep as <-.
      destruct (take_spec _ _ _ _ Ht) as (_ & Hlen & _).
      rewrite Hp, Hlen. reflexivity.
Qed.

Lemma each_trigger_starts_an_execution_witness :
  List.length (timers (start (boot Server.FETCH_INTERVAL_MS))) <= 1
  /\ inFlight (serve 0 triggerDataCollection (start (boot Server.FETCH_INTERVAL_MS))) = 2.
Proof.
  exact (each_trigger_starts_an_execution Server.FETCH_INTERVAL_MS [CallStart]
           (start (boot Server.FETCH_INTERVAL_MS)) _ (Request 0) eq_refl eq_refl).
Defined.

(** C4, as stated, fails: a request whose run is rejected is answered with
    [success: true]. *)
Lemma trigger_reports_failed_run_as_success :
  ~ (forall (evs : list Event) (L L' : Loop) (x req : nat) (o : Outcome),
       run (boot Server.FETCH_INTERVAL_MS) evs = Some L ->
       requestOf x L = Some req ->
       step L (Settle x o) = Some L' ->
       exists msg, In (req, TriggerAck (succeeded o) msg) (replies L')).
Proof.
  intros H.
  destruct (H [Request 0] _ _ 0 0 (Rejected "feed unreachable")
              eq_refl eq_refl eq_refl) as [msg Hin].
  destruct Hin as [Hin|[]]. discriminate Hin.
Qed.

(** C4, amended: the handler of [triggerDataCollection] answers only once
    the run it started has completed: the request starts an execution of the
    task and gets no response at that time, and the response is produced in
    the step in which the task promise of that execution settles.  Its
    success flag does not tell how the run ended: the scheduler has caught
    the task's error, so the response is always
    [{success: true, message: 'Data collection task triggered successfully.'}]. *)
Theorem trigger_ack_follows_the_run (i : Z) (evs : list Event)
    (L L' : Loop) (ev : Event) :
  run (boot i) evs = Some L ->
  step L ev = Some L' ->
  match ev with
  | Request req =>
      replies L' = replies L
      /\ exists k, pending L' = (pending L ++ [mkExec (nextExec L) (Responding req k)])%list
  | Settle x o =>
      replies L' =
      match requestOf x L with
      | Some req => (replies L ++ [(req, ack)])%list
      | None => replies L
      end
  | _ => replies L' = replies L
  end.
Proof.
  intros Hreach Hstep.
  pose proof (reachable_Inv _ _ _ Hreach) as HI.
  destruct ev as [| | | timer | req | x o].
  - injection Hstep as <-. unfold start.
    destruct (Scheduler.isRunning (sched L)); [reflexivity|].
    unfold spawn. now rewrite advance_runTask.
  - injection Hstep as <-. unfold stop.
    destruct (Scheduler.isRunning (sched L)); reflexivity.
  - injection Hstep as <-. unfold spawn. now rewrite advance_runOnDemand.
  - simpl in Hstep.
    destruct (existsb (Nat.eqb timer) (timers L)); [|discriminate Hstep].
    injection Hstep as <-. unfold spawn. now rewrite advance_runTask.
  - injection Hstep as <-. unfold serve. rewrite advance_trigger. simpl.
    split; [reflexivity | eexists; reflexivity].
  - assert (Hx : In x (map exec (pending L))).
    { simpl in Hstep.
      destruct (take x (pending L)) as [[e rest]|] eqn:Hx; [|discriminate Hstep].
      eapply take_in. exact Hx. }
    destruct (settle_step L x o HI Hx)
      as (e & rest & L1 & Ht & Hs & _ & _ & _ & _ & _ & _ & Hr).
    rewrite Hs in Hstep. injection Hstep as <-.
    unfold requestOf. rewrite Ht, Hr.
    destruct e as [n [k|req k]]; reflexivity.
Qed.

Lemma trigger_ack_follows_the_run_witness :
  exists L',
    step (serve 0 triggerDataCollection (boot Server.FETCH_INTERVAL_MS))
         (Settle 0 (Rejected "feed unreachable")) = Some L'
    /\ replies L' = [(0, ack)].
Proof.
  eexists. split; [reflexivity|].
  exact (trigger_ack_follows_the_run Server.FETCH_INTERVAL_MS [Request 0]
           (serve 0 triggerDataCollection (boot Server.FETCH_INTERVAL_MS)) _
           (Settle 0 (Rejected "feed unreachable")) eq_refl eq_refl).
Defined.

(** C7: when the task of an execution in flight raises an exception,
    whoever started the execution (the first run of [start], a tick, an
    on-demand trigger), the scheduler catches it: nothing is thrown to the
    caller or left as an unhandled rejection, the execution is logged as
    failed, and the scheduler is as it was, its timer still set; the next
    tick of that timer fires and starts an execution of the task. *)
Theorem task_failure_is_contained (i : Z) (evs : list Event) (L : Loop)
    (x : nat) (e : Error) :
  run (boot i) evs = Some L ->
  In x (map exec (pending L)) ->
  exists L',
    step L (Settle x (Rejected e)) = Some L'
    /\ unhandled L' = [] /\ faults L' = []
    /\ out L' =
       (out L ++ [ConsoleError "Scheduler: Error during scheduled task execution:" e])%list
    /\ sched L' = sched L /\ timers L' = timers L
    /\ forall t, Scheduler.timerId (sched L) = Some t ->
                 exists L'', step L' (Tick t) = Some L''
                             /\ inFlight L'' = S (inFlight L').
Proof.
  intros Hreach Hx.
  pose proof (reachable_Inv _ _ _ Hreach) as HI.
  destruct (settle_step L x (Rejected e) HI Hx)
    as (ex & rest & L' & _ & Hs & Hsched & Htimers & _ & Hout & Hu & Hf & _).
  exists L'. repeat (split; [assumption|]).
  intros t Ht.
  assert (Hset : timers L' = [t]).
  { rewrite Htimers, (inv_timers _ HI), Ht. reflexivity. }
  simpl. rewrite Hset. simpl. rewrite Nat.eqb_refl. simpl.
  eexists. split; [reflexivity|].
  unfold spawn, inFlight. rewrite advance_runTask. simpl.
  rewrite length_app. simpl. lia.
Qed.

Lemma task_failure_is_contained_witness :
  exists L',
    step (start (boot Server.FETCH_INTERVAL_MS)) (Settle 0 (Rejected "feed unreachable"))
    = Some L'
    /\ Scheduler.isRunning (sched L') = true
    /\ exists L'', step L' (Tick 0) = Some L'' /\ inFlight L'' = 1.
Proof.
  destruct (task_failure_is_contained Server.FETCH_INTERVAL_MS [CallStart]
              (start (boot Server.FETCH_INTERVAL_MS)) 0 "feed unreachable"
              eq_refl (or_introl eq_refl))
    as (L' & Hs & _ & _ & _ & Hsched & _ & Htick).
  exists L'. split; [exact Hs|]. split; [now rewrite Hsched|].
  destruct (Htick 0 eq_refl) as (L'' & Hs' & Hn).
  exists L''. split; [exact Hs'|].
  rewrite Hn.
  injection Hs as <-. reflexivity.
Defined.

End SchedulerProps.

(* ================================================================== *)
(** * Further properties of the store, the feed, the handlers and the loop *)
(* ================================================================== *)

Module DecimalFacts.

Import Decimals.

Lemma string_of_uint_digits (d : Decimal.uint) :
  NilEmpty.string_of_uint d = digitString (udigits d).
Proof. induction d; simpl; [reflexivity | now rewrite IHd ..]. Qed.

Lemma udigits_range (d : Decimal.uint) : Forall isDigit (udigits d).
Proof.
  induction d; simpl; constructor; try exact IHd; unfold isDigit; lia.
Qed.

Lemma of_uint_acc_horner (d : Decimal.uint) :
  forall p, Z.pos (Pos.of_uint_acc d p) = horner (udigits d) (Z.pos p).
Proof.
  induction d; intros p; cbn [udigits horner Pos.of_uint_acc];
    [reflexivity | rewrite IHd; f_equal; lia ..].
Qed.

Lemma of_uint_horner (d : Decimal.uint) :
  Z.of_N (Pos.of_uint d) = horner (udigits d) 0.
Proof.
  induction d; cbn [udigits horner Pos.of_uint Z.of_N];
    [reflexivity | exact IHd | apply of_uint_acc_horner ..].
Qed.

Lemma digit_cases (k : Z) :
  isDigit k ->
  k = 0%Z \/ k = 1%Z \/ k = 2%Z \/ k = 3%Z \/ k = 4%Z \/ k = 5%Z \/ k = 6%Z
  \/ k = 7%Z \/ k = 8%Z \/ k = 9%Z.
Proof. unfold isDigit. lia. Qed.

Ltac each_digit k H :=
  destruct (digit_cases k H) as [->|[->|[->|[->|[->|[->|[->|[->|[->| ->]]]]]]]]].

Lemma digitOf_digitChar (k : Z) : isDigit k -> digitOf 10 (digitChar k) = Some k.
Proof. intros H. each_digit k H; reflexivity. Qed.

Lemma parseDigits_horner (l : list Z) :
  Forall isDigit l ->
  forall a, parseDigits 10 (digitString l) (Some a) = Some (horner l a).
Proof.
  induction 1 as [|k r Hk _ IH]; intros a; cbn [digitString parseDigits horner];
    [reflexivity|].
  rewrite (digitOf_digitChar k Hk). rewrite IH. f_equal. f_equal. lia.
Qed.

Lemma parseDigits_start (k : Z) (r : list Z) :
  isDigit k -> Forall isDigit r ->
  parseDigits 10 (digitString (k :: r)) None = Some (horner (k :: r) 0).
Proof.
  intros Hk Hr. cbn [digitString parseDigits horner].
  rewrite (digitOf_digitChar k Hk). now rewrite parseDigits_horner.
Qed.

Ltac show_digits :=
  repeat match goal with
         | |- context [digitChar ?k] =>
             let c := eval vm_compute in (digitChar k) in
             change (digitChar k) with c
         end.

Ltac not_white :=
  repeat match goal with
         | |- context [isWhite ?c] =>
             let b := eval vm_compute in (isWhite c) in
             change (isWhite c) with b
         end.

Ltac by_parse P :=
  cbn [digitString] in P |- *; revert P; show_digits; cbv beta iota; intros P; rewrite P; reflexivity.

Lemma parseInt_digits (l : list Z) :
  Forall isDigit l -> l <> [] ->
  parseInt (Some (digitString l)) = Some (horner l 0).
Proof.
  intros Hl Hne.
  destruct l as [|k r]; [now elim Hne|].
  inversion Hl as [|? ? Hk Hr]; subst.
  pose proof (parseDigits_start k r Hk Hr) as P.
  cbn [digitString] in P |- *.
  unfold parseInt. cbn [skipWhite].
  each_digit k Hk; show_digits; not_white; cbv beta iota; try by_parse P.
  destruct r as [|k2 r2]; [by_parse P|].
  inversion Hr as [|? ? Hk2 Hr2]; subst.
  cbn [digitString] in P |- *.
  each_digit k2 Hk2; by_parse P.
Qed.

Lemma parseInt_minus_digits (l : list Z) :
  Forall isDigit l -> l <> [] ->
  parseInt (Some (String "-" (digitString l))) = Some (- horner l 0)%Z.
Proof.
  intros Hl Hne.
  destruct l as [|k r]; [now elim Hne|].
  inversion Hl as [|? ? Hk Hr]; subst.
  pose proof (parseDigits_start k r Hk Hr) as P.
  unfold parseInt. cbn [skipWhite]. not_white. cbv beta iota.
  cbn [digitString] in P |- *.
  each_digit k Hk; try by_parse P.
  destruct r as [|k2 r2]; [by_parse P|].
  inversion Hr as [|? ? Hk2 Hr2]; subst.
  cbn [digitString] in P |- *.
  each_digit k2 Hk2; by_parse P.
Qed.

(** The decimal text of a number, by its digits. *)
Lemma numToString_digits (t : Z) :
  exists l, Forall isDigit l /\ l <> [] /\ Z.abs t = horner l 0
            /\ numToString t = if (t <? 0)%Z then String "-" (digitString l)
                                else digitString l.
Proof.
  unfold numToString.
  assert (U : forall p, exists l, Forall isDigit l /\ l <> [] /\ Z.pos p = horner l 0
                                  /\ NilZero.string_of_uint (Pos.to_uint p) = digitString l).
  { intros p. exists (udigits (Pos.to_uint p)).
    pose proof (Unsigned.to_uint_nonnil p) as Hn.
    split; [apply udigits_range|]. split.
    - destruct (Pos.to_uint p); [now elim Hn | discriminate ..].
    - split.
      + rewrite <- of_uint_horner, DecimalPos.Unsigned.of_to. reflexivity.
      + unfold NilZero.string_of_uint.
        destruct (Pos.to_uint p) eqn:E; [now elim Hn | rewrite <- E ..];
          apply string_of_uint_digits. }
  destruct t as [|p|p].
  - exists [0%Z]. repeat split; [repeat constructor; unfold isDigit; lia | discriminate].
  - destruct (U p) as (l & H1 & H2 & H3 & H4). exists l. repeat split; assumption.
  - destruct (U p) as (l & H1 & H2 & H3 & H4). exists l. repeat split; try assumption.
    cbn. now rewrite H4.
Qed.

(** Reading the decimal text of an integer gives the integer back. *)
Lemma parseInt_numToString (t : Z) : parseInt (Some (numToString t)) = Some t.
Proof.
  destruct (numToString_digits t) as (l & Hl & Hne & Hv & ->).
  destruct (t <? 0)%Z eqn:Ht.
  - rewrite parseInt_minus_digits by assumption. f_equal.
    apply Z.ltb_lt in Ht. lia.
  - rewrite parseInt_digits by assumption. f_equal.
    apply Z.ltb_ge in Ht. lia.
Qed.

Lemma numToString_inj (t1 t2 : Z) : numToString t1 = numToString t2 -> t1 = t2.
Proof.
  intros H. pose proof (parseInt_numToString t1) as H1.
  rewrite H, parseInt_numToString in H1. congruence.
Qed.

Lemma slashFree_digits (l : list Z) :
  Forall isDigit l -> slashFree (digitString l) = true.
Proof.
  induction 1 as [|k r Hk _ IH]; [reflexivity|].
  cbn [digitString slashFree]. rewrite IH.
  each_digit k Hk; reflexivity.
Qed.

Lemma slashFree_numToString (t : Z) : slashFree (numToString t) = true.
Proof.
  destruct (numToString_digits t) as (l & Hl & _ & _ & ->).
  destruct (t <? 0)%Z; [cbn [slashFree]|]; now rewrite slashFree_digits.
Qed.

Lemma slashFree_append (a b : string) : slashFree (a ++ String "/" b) = false.
Proof.
  induction a as [|c a IH]; [reflexivity|].
  cbn [append slashFree]. rewrite IH. apply andb_false_r.
Qed.

Lemma split_slashFree (r : string) : slashFree r = true -> split_slash r = [r].
Proof.
  induction r as [|c r IH]; [reflexivity|].
  cbn [slashFree split_slash]. intros H. apply andb_true_iff in H.
  destruct H as [Hc Hr]. apply negb_true_iff in Hc. rewrite Hc.
  now rewrite (IH Hr).
Qed.

(** [split('/')] cuts a text at the first ['/'] after a prefix that has
    none. *)
Lemma split_slash_append (a r : string) :
  slashFree a = true -> split_slash (a ++ String "/" r) = a :: split_slash r.
Proof.
  induction a as [|c a IH]; [reflexivity|].
  cbn [slashFree append split_slash]. intros H. apply andb_true_iff in H.
  destruct H as [Hc Ha]. apply negb_true_iff in Hc. rewrite Hc.
  now rewrite (IH Ha).
Qed.

Lemma append_slash_inj (a1 a2 n1 n2 : string) :
  slashFree n1 = true -> slashFree n2 = true ->
  a1 ++ String "/" n1 = a2 ++ String "/" n2 -> a1 = a2 /\ n1 = n2.
Proof.
  intros H1 H2. revert a2.
  induction a1 as [|c a1 IH]; intros [|d a2] H; cbn [append] in H.
  - injection H as ->. now split.
  - exfalso. injection H as _ H.
    rewrite H, slashFree_append in H1. discriminate H1.
  - exfalso. injection H as _ H.
    rewrite <- H, slashFree_append in H2. discriminate H2.
  - injection H as -> H.
    destruct (IH a2 H) as [-> ->]. now split.
Qed.







End DecimalFacts.

Module ClientProps.

Local Open Scope eff_scope.

Import Hyperbee HyperbeeClient Scenario Cases.

(** X1: initDB stores the new handle in the module variable before it
    awaits [ready]: when [ready] rejects, the call fails, but the handle of
    the store that never became ready is kept, and every later call of
    initDB, whatever its path, returns that handle without a new attempt. *)
Theorem initDB_failure_is_kept (w w1 : World) (p : option string) (e : Error) :
  initDB p w = (Raise e, w1) ->
  exists h, hbee w1 = Some h
            /\ hpath h = resolve w (match p with Some q => q | None => "./db/hyperdata" end)
            /\ forall p2 : option string, initDB p2 w1 = (Ok h, w1).
Proof.
  unfold initDB. intros H.
  destruct (hbee w) as [h0|] eqn:Hh; [discriminate H|].
  destruct (diskFault w _) as [e'|]; [|discriminate H].
  injection H as <- <-.
  eexists. split; [reflexivity|]. split; [reflexivity|].
  intros p2. reflexivity.
Qed.

Lemma initDB_failure_is_kept_witness :
  exists h, hpath h = "./db/crypto-prices"
            /\ initDB (Some "./db/elsewhere")
                      (snd (initDB (Some "./db/crypto-prices") brokenDisk))
               = (Ok h, snd (initDB (Some "./db/crypto-prices") brokenDisk)).
Proof.
  destruct (initDB_failure_is_kept brokenDisk _ (Some "./db/crypto-prices")
              "EACCES: permission denied" eq_refl) as (h & _ & Hp & Hnext).
  exists h. split; [exact Hp | apply Hnext].
Defined.

Lemma insert_insert (k : string) (v1 v2 : Value) (es : list Entry) :
  insert k v2 (insert k v1 es) = insert k v2 es.
Proof.
  induction es as [|e es IH]; simpl.
  - now rewrite KeyOrder.compare_refl.
  - destruct (String.compare k (key e)) eqn:Hc; simpl.
    + now rewrite KeyOrder.compare_refl.
    + now rewrite KeyOrder.compare_refl.
    + now rewrite Hc, IH.
Qed.

(** X2: on a writable medium, saving two data points with the same pair
    and timestamp leaves the entries that saving the second alone leaves:
    the second value replaces the first; only the version counts one more
    write. *)
Theorem savePriceData_last_write_wins (w : World) (h : Handle) (d1 d2 : DataPoint) :
  writeFault (medium (bee w)) = None ->
  pair d1 = pair d2 ->
  timestamp d1 = timestamp d2 ->
  let twice := bee (snd ((savePriceData (Some h) d1 ;; savePriceData (Some h) d2) w)) in
  let once := bee (snd (savePriceData (Some h) d2 w)) in
  entries twice = entries once
  /\ version twice = S (version once).
Proof.
  intros Hm Hp Ht. cbv zeta. unfold bind.
  rewrite (StoreFacts.savePriceData_healthy h d1 w Hm).
  rewrite (StoreFacts.savePriceData_healthy h d2 w Hm).
  rewrite StoreFacts.savePriceData_healthy by exact Hm.
  cbn [snd bee setBee entries version].
  rewrite Hp, Ht. split; [apply insert_insert | reflexivity].
Qed.

Lemma savePriceData_last_write_wins_witness :
  entries (bee (snd ((savePriceData db0 (mkPoint "BTC-USDT" 1000 (QArith_base.Qmake 1 1) ["A"] None) ;;
                      savePriceData db0 (mkPoint "BTC-USDT" 1000 (QArith_base.Qmake 2 1) ["B"] None))
                       oneRecord)))
  = [mkEntry "BTC-USDT/1000" (mkValue (QArith_base.Qmake 2 1) ["B"])].
Proof.
  destruct (savePriceData_last_write_wins oneRecord (mkHandle 0 "./db/crypto-prices")
              (mkPoint "BTC-USDT" 1000 (QArith_base.Qmake 1 1) ["A"] None)
              (mkPoint "BTC-USDT" 1000 (QArith_base.Qmake 2 1) ["B"] None)
              eq_refl eq_refl eq_refl) as [He _].
  exact He.
Defined.

Lemma insertSorted_perm (x : PriceEntry) (l : list PriceEntry) :
  Permutation (insertSorted x l) (x :: l).
Proof.
  induction l as [|y l IH]; simpl; [reflexivity|].
  destruct (after x y); [|reflexivity].
  rewrite IH. apply perm_swap.
Qed.

Lemma sortByTimestamp_perm (l : list PriceEntry) :
  Permutation (sortByTimestamp l) l.
Proof.
  induction l as [|x l IH]; simpl; [reflexivity|].
  unfold sortByTimestamp in *. simpl.
  rewrite insertSorted_perm. now constructor.
Qed.

Lemma insertSorted_sorted (x : PriceEntry) (l : list PriceEntry) :
  hasTimestamp x -> Forall hasTimestamp l ->
  StronglySorted tsLe l -> StronglySorted tsLe (insertSorted x l).
Proof.
  intros Hx Hall Hs. induction Hs as [|y l Hs IH Hy]; simpl.
  - repeat constructor.
  - inversion Hall as [|? ? Hy' Hl]; subst.
    unfold after. unfold hasTimestamp in Hx, Hy'.
    destruct (p_timestamp x) as [tx|] eqn:Ex; [|now elim Hx].
    destruct (p_timestamp y) as [ty|] eqn:Ey; [|now elim Hy'].
    destruct (ty <? tx)%Z eqn:Hlt.
    + constructor; [now apply IH|].
      apply Z.ltb_lt in Hlt.
      eapply Permutation_Forall; [symmetry; apply insertSorted_perm|].
      constructor; [|exact Hy].
      unfold tsLe. rewrite Ey, Ex. lia.
    + apply Z.ltb_ge in Hlt.
      constructor; [constructor; assumption|].
      constructor; [unfold tsLe; rewrite Ex, Ey; lia|].
      eapply Forall_impl; [|exact Hy].
      intros a. unfold tsLe. rewrite Ex, Ey.
      destruct (p_timestamp a); [lia | tauto].
Qed.

(** X3: the sort at the end of getHistoricalPrices returns a permutation
    of its argument, and when every record has a number as timestamp the
    result is in ascending order of time. *)
Theorem sortByTimestamp_sorts (l : list PriceEntry) :
  Permutation (sortByTimestamp l) l
  /\ (Forall hasTimestamp l -> StronglySorted tsLe (sortByTimestamp l)).
Proof.
  split; [apply sortByTimestamp_perm|].
  induction 1 as [|x l Hx Hl IH]; [constructor|].
  change (StronglySorted tsLe (insertSorted x (sortByTimestamp l))).
  apply insertSorted_sorted; [exact Hx | | exact IH].
  eapply Permutation_Forall; [symmetry; apply sortByTimestamp_perm | exact Hl].
Qed.

Lemma sortByTimestamp_sorts_witness :
  StronglySorted tsLe
    (sortByTimestamp [mkPrice "S" (Some 20%Z) (QArith_base.Qmake 1 1) [];
                      mkPrice "S" (Some 15%Z) (QArith_base.Qmake 2 1) [];
                      mkPrice "S" (Some 20%Z) (QArith_base.Qmake 3 1) []]).
Proof.
  apply sortByTimestamp_sorts.
  repeat constructor; discriminate.
Defined.

End ClientProps.

Module KeyProps.

Local Open Scope eff_scope.

Import Hyperbee HyperbeeClient Decimals DecimalFacts Domain Scenario Cases.

Lemma keyOf_reduced (s : string) (t : Z) : keyOf s t = s ++ String "/" (numToString t).
Proof. reflexivity. Qed.

Lemma keyOf_inj (s1 s2 : string) (t1 t2 : Z) :
  keyOf s1 t1 = keyOf s2 t2 -> s1 = s2 /\ t1 = t2.
Proof.
  rewrite !keyOf_reduced. intros H.
  apply append_slash_inj in H; try apply slashFree_numToString.
  destruct H as [-> H]. split; [reflexivity | now apply numToString_inj].
Qed.


(** X4: the key [pair/timestamp] of savePriceData determines the pair and
    the timestamp: two data points share a key only if they have the same
    pair and the same timestamp, whatever characters the pairs hold. *)
Theorem keyOf_injective (s1 s2 : string) (t1 t2 : Z) :
  keyOf s1 t1 = keyOf s2 t2 -> s1 = s2 /\ t1 = t2.
Proof. apply keyOf_inj. Qed.

Lemma keyOf_injective_witness :
  "BTC-USDT" = "BTC-USDT" /\ 1000%Z = 1000%Z.
Proof. apply (keyOf_injective "BTC-USDT" "BTC-USDT" 1000 1000). reflexivity. Defined.



End KeyProps.

Module DomainProps.

Local Open Scope eff_scope.

Import Hyperbee HyperbeeClient Decimals DecimalFacts Domain Scenario Cases.












End DomainProps.

Module BatchProps.

Local Open Scope eff_scope.

Import Hyperbee HyperbeeClient Decimals DecimalFacts Domain Scenario Cases Batch.

Lemma In_insert (k : string) (v : Value) (es : list Entry) (e : Entry) :
  In e (insert k v es) -> e = mkEntry k v \/ In e es.
Proof.
  induction es as [|a es IH]; simpl.
  - intros [<-|[]]. now left.
  - destruct (String.compare k (key a)).
    + intros [<-|H]; [now left | right; now right].
    + intros [<-|H]; [now left | now right].
    + intros [<-|H]; [right; now left|].
      destruct (IH H) as [->|H']; [now left | right; now right].
Qed.

(** A key under [s/] belongs to series [s], when neither name has a ['/']. *)
Lemma startsWith_keyOf (s s' : string) (t : Z) :
  slashFree s = true -> slashFree s' = true ->
  startsWith (keyOf s' t) (s ++ "/") = true -> s' = s.
Proof.
  unfold startsWith. rewrite KeyProps.keyOf_reduced.
  revert s'. induction s as [|c s IH]; intros [|c' s'] Hs Hs' H.
  - reflexivity.
  - exfalso. cbn [append String.prefix] in H. cbn [slashFree] in Hs'.
    destruct (ascii_dec "/" c') as [<-|N]; [discriminate Hs' | discriminate H].
  - exfalso. cbn [append String.prefix] in H. cbn [slashFree] in Hs.
    destruct (ascii_dec c "/") as [->|N]; [discriminate Hs | discriminate H].
  - cbn [append String.prefix] in H. cbn [slashFree] in Hs, Hs'.
    apply andb_true_iff in Hs, Hs'.
    destruct (ascii_dec c c') as [<-|N]; [|discriminate H].
    f_equal. apply IH; tauto.
Qed.

Lemma savePriceData_uniform (w : World) (h : Handle) (d : DataPoint) (n : nat) :
  regular n d ->
  (forall s, slashFree s = true -> uniform s n (bee w)) ->
  forall s, slashFree s = true -> uniform s n (bee (snd (savePriceData (Some h) d w))).
Proof.
  intros (Hp & Ht & Hw) Hu s Hs e He Hpre.
  assert (Hcase : e = mkEntry (keyOf (pair d) (timestamp d))
                              (mkValue (HyperbeeClient.averagePrice d)
                                       (HyperbeeClient.exchanges d))
                  \/ In e (entries (bee w))).
  { revert He. unfold savePriceData, tryCatch, dbPut, Hyperbee.put, consoleError, emit.
    destruct (writeFault (medium (bee w))); cbn [fst snd bee setBee setConsole entries].
    - now right.
    - apply In_insert. }
  destruct Hcase as [->|Hold]; [|now apply (Hu s Hs)].
  cbn [key] in Hpre |- *.
  pose proof (startsWith_keyOf s (pair d) (timestamp d) Hs Hp Hpre) as E.
  exists (timestamp d). rewrite E. repeat split; assumption.
Qed.

(** X8: saving a batch of data points whose pairs have no ['/'] and whose
    timestamps are non-negative and of one width never fails, keeps the
    store sorted by key and keeps every series within that width. *)
Theorem saveAll_keeps_the_domain (ds : list DataPoint) (n : nat) :
  forall (w : World) (h : Handle),
    wf (bee w) ->
    (forall s, slashFree s = true -> uniform s n (bee w)) ->
    Forall (regular n) ds ->
    fst (saveAll (Some h) ds w) = Ok tt
    /\ wf (bee (snd (saveAll (Some h) ds w)))
    /\ forall s, slashFree s = true -> uniform s n (bee (snd (saveAll (Some h) ds w))).
Proof.
  unfold saveAll.
  induction ds as [|d ds IH]; intros w h Hwf Hu Hall; cbn [forEach].
  - repeat split; assumption.
  - inversion Hall as [|? ? Hd Hds]; subst.
    unfold bind.
    assert (Hok : fst (savePriceData (Some h) d w) = Ok tt).
    { unfold savePriceData, tryCatch, dbPut, Hyperbee.put, consoleError, emit.
      now destruct (writeFault (medium (bee w))). }
    pose proof (StoreFacts.savePriceData_wf (Some h) d w Hwf) as Hwf1.
    pose proof (savePriceData_uniform w h d n Hd Hu) as Hu1.
    destruct (savePriceData (Some h) d w) as [r w1]. cbn [fst snd] in *. subst r.
    now apply IH.
Qed.

Lemma saveAll_keeps_the_domain_witness :
  fst (saveAll db0
         [mkPoint "BTC-USDT" 1000 (QArith_base.Qmake 50000 1) ["A"; "B"] None;
          mkPoint "ETH-USDT" 2000 (QArith_base.Qmake 3000 1) [] None]
         freshWorld) = Ok tt.
Proof.
  apply (saveAll_keeps_the_domain
           [mkPoint "BTC-USDT" 1000 (QArith_base.Qmake 50000 1) ["A"; "B"] None;
            mkPoint "ETH-USDT" 2000 (QArith_base.Qmake 3000 1) [] None]
           4 freshWorld (mkHandle 0 "./db/crypto-prices")).
  - constructor.
  - intros s _ e [].
  - repeat constructor; discriminate.
Defined.

End BatchProps.

Module IsolationProps.

Local Open Scope eff_scope.

Import Hyperbee HyperbeeClient Decimals DecimalFacts Domain Scenario Cases Batch.

Lemma filter_insert_out (f : Entry -> bool) (k : string) (v : Value) (es : list Entry) :
  (forall a b, key a = key b -> f a = f b) ->
  f (mkEntry k v) = false ->
  filter f (insert k v es) = filter f es.
Proof.
  intros Hkey Hout. induction es as [|e es IH]; simpl.
  - now rewrite Hout.
  - destruct (String.compare k (key e)) eqn:Hc; simpl.
    + apply String.compare_eq_iff in Hc.
      rewrite Hout. rewrite (Hkey e (mkEntry k v)) by (symmetry; exact Hc).
      now rewrite Hout.
    + now rewrite Hout.
    + now rewrite IH.
Qed.

Lemma scan_insert_out (o : ReadOptions) (k : string) (v : Value) (es : list Entry) :
  inRange o (mkEntry k v) = false ->
  scan o (insert k v es) = scan o es.
Proof.
  intros H. unfold scan. rewrite filter_insert_out; [reflexivity | | exact H].
  intros a b E. unfold inRange. now rewrite E.
Qed.

(** The key of a record of another series is outside the ranges the
    readers scan for [s]. *)
Lemma other_series_out_of_range (s s' : string) (t : Z) (v : Value) (o : ReadOptions) :
  slashFree s = true -> slashFree s' = true -> s' <> s ->
  gte o = s ++ "/" \/ (exists lo, gte o = (s ++ "/") ++ lo) ->
  (exists hi, lte o = (s ++ "/") ++ hi) ->
  inRange o (mkEntry (keyOf s' t) v) = false.
Proof.
  intros Hs Hs' Hne Hlo [hi Hhi].
  destruct (inRange o (mkEntry (keyOf s' t) v)) eqn:Hin; [|reflexivity].
  exfalso. apply Hne.
  unfold inRange in Hin. cbn [key] in Hin. apply andb_true_iff in Hin.
  destruct Hin as [L U]. rewrite Hhi in U.
  apply (BatchProps.startsWith_keyOf s s' t Hs Hs').
  eapply KeyOrder.between_prefix; [|exact U].
  destruct Hlo as [E|[lo E]]; rewrite E in L; [exact L|].
  unfold String.leb in *.
  destruct (String.compare (s ++ "/") (keyOf s' t)) eqn:C; try reflexivity.
  exfalso. apply KeyOrder.gt_lt in C.
  assert (P : String.leb (s ++ "/") ((s ++ "/") ++ lo) = true) by apply KeyOrder.leb_append.
  unfold String.leb in P.
  destruct (String.compare (s ++ "/") ((s ++ "/") ++ lo)) eqn:C2; try discriminate P.
  - apply String.compare_eq_iff in C2. rewrite <- C2 in L.
    unfold before in C. rewrite String.compare_antisym, C in L. discriminate L.
  - assert (T : before (keyOf s' t) ((s ++ "/") ++ lo))
      by (eapply KeyOrder.lt_trans; [exact C | exact C2]).
    unfold before in T. rewrite String.compare_antisym, T in L. discriminate L.
Qed.

(** X9: a write for one pair changes no answer about another pair: for
    pairs without ['/'], getLatestPrice and getHistoricalPrices of a pair [s]
    return after savePriceData of a data point of another pair what they
    returned before, whether the write succeeded or not. *)
Theorem write_leaves_other_series (w : World) (db : option Handle) (d : DataPoint)
    (s : string) (from to : Z) :
  slashFree s = true -> slashFree (pair d) = true -> pair d <> s ->
  fst (getLatestPrice db s (snd (savePriceData db d w))) = fst (getLatestPrice db s w)
  /\ fst (getHistoricalPrices db s from to (snd (savePriceData db d w)))
     = fst (getHistoricalPrices db s from to w).
Proof.
  intros Hs Hd Hne.
  destruct db as [h|]; [|split; reflexivity].
  set (k := keyOf (pair d) (timestamp d)).
  set (v := mkValue (HyperbeeClient.averagePrice d) (HyperbeeClient.exchanges d)).
  assert (B : forall o,
             (gte o = s ++ "/" \/ exists lo, gte o = (s ++ "/") ++ lo) ->
             (exists hi, lte o = (s ++ "/") ++ hi) ->
             createReadStream o (bee (snd (savePriceData (Some h) d w)))
             = createReadStream o (bee w)).
  { intros o Hlo Hhi.
    unfold savePriceData, tryCatch, dbPut, Hyperbee.put, consoleError, emit.
    destruct (writeFault (medium (bee w))); cbn [snd bee setBee setConsole]; [reflexivity|].
    unfold createReadStream. cbn [medium entries].
    rewrite scan_insert_out; [reflexivity|].
    apply other_series_out_of_range with (s := s); assumption. }
  split.
  - unfold getLatestPrice, tryCatch, bind, dbStream, ret, throw, consoleError, emit.
    rewrite B; [| now left | now exists xff].
    destruct (createReadStream _ (bee w)) as [[|e es] [err|]]; reflexivity.
  - unfold getHistoricalPrices, bind, dbStream, ret, consoleError, emit.
    cbn [fst snd].
    rewrite B; [| right; exists (numToString from); apply StoreFacts.keyOf_prefix
                 | exists (numToString to); apply StoreFacts.keyOf_prefix].
    destruct (snd (createReadStream _ (bee w))); reflexivity.
Qed.

Lemma write_leaves_other_series_witness :
  fst (getLatestPrice db0 "BTC-USDT"
         (snd (savePriceData db0 (mkPoint "ETH-USDT" 2000 (QArith_base.Qmake 3 1) ["C"] None)
                 oneRecord)))
  = Ok (Some (mkPrice "BTC-USDT" (Some 1000%Z) (QArith_base.Qmake 50000 1) ["A"; "B"])).
Proof.
  destruct (write_leaves_other_series oneRecord db0
              (mkPoint "ETH-USDT" 2000 (QArith_base.Qmake 3 1) ["C"] None)
              "BTC-USDT" 0 0 eq_refl eq_refl) as [H _].
  - discriminate.
  - rewrite H. reflexivity.
Defined.

Lemma compare_flip (a b : string) (c : comparison) :
  String.compare a b = c -> String.compare b a = CompOpp c.
Proof. intros <-. apply String.compare_antisym. Qed.

Ltac settle_order :=
  repeat (cbn [insert key];
          repeat match goal with
                 | H : String.compare ?a ?b = _ |- context [String.compare ?a ?b] =>
                     rewrite H
                 end;
          cbv beta iota);
  try reflexivity.

Lemma insert_comm (k1 k2 : string) (v1 v2 : Value) (es : list Entry) :
  k1 <> k2 ->
  insert k1 v1 (insert k2 v2 es) = insert k2 v2 (insert k1 v1 es).
Proof.
  intros Hne.
  induction es as [|e es IH].
  - destruct (String.compare k1 k2) eqn:A.
    + apply String.compare_eq_iff in A. contradiction.
    + pose proof (compare_flip _ _ _ A) as A'. cbn [CompOpp] in A'. settle_order.
    + pose proof (compare_flip _ _ _ A) as A'. cbn [CompOpp] in A'. settle_order.
  - destruct (String.compare k2 (key e)) eqn:B2;
      destruct (String.compare k1 (key e)) eqn:B1.
    + apply String.compare_eq_iff in B1, B2. congruence.
    + assert (A : String.compare k1 k2 = Lt)
        by (apply String.compare_eq_iff in B2; now rewrite B2).
      pose proof (compare_flip _ _ _ A) as A'. cbn [CompOpp] in A'. settle_order.
    + assert (A : String.compare k1 k2 = Gt)
        by (apply String.compare_eq_iff in B2; now rewrite B2).
      pose proof (compare_flip _ _ _ A) as A'. cbn [CompOpp] in A'. settle_order.
    + assert (A : String.compare k2 k1 = Lt)
        by (apply String.compare_eq_iff in B1; now rewrite B1).
      pose proof (compare_flip _ _ _ A) as A'. cbn [CompOpp] in A'. settle_order.
    + destruct (String.compare k1 k2) eqn:A.
      * apply String.compare_eq_iff in A. contradiction.
      * pose proof (compare_flip _ _ _ A) as A'. cbn [CompOpp] in A'. settle_order.
      * pose proof (compare_flip _ _ _ A) as A'. cbn [CompOpp] in A'. settle_order.
    + assert (A : String.compare k2 k1 = Lt)
        by (eapply KeyOrder.lt_trans; [exact B2 | apply KeyOrder.gt_lt; exact B1]).
      pose proof (compare_flip _ _ _ A) as A'. cbn [CompOpp] in A'. settle_order.
    + assert (A : String.compare k1 k2 = Lt)
        by (apply String.compare_eq_iff in B1; rewrite B1;
            apply KeyOrder.gt_lt; exact B2).
      pose proof (compare_flip _ _ _ A) as A'. cbn [CompOpp] in A'. settle_order.
    + assert (A : String.compare k1 k2 = Lt)
        by (eapply KeyOrder.lt_trans; [exact B1 | apply KeyOrder.gt_lt; exact B2]).
      pose proof (compare_flip _ _ _ A) as A'. cbn [CompOpp] in A'. settle_order.
    + settle_order. now rewrite IH.
Qed.

(** X10: on a writable medium, two writes of data points that differ
    in pair or in timestamp leave the same store in either order. *)
Theorem writes_of_distinct_records_commute (w : World) (h : Handle) (d1 d2 : DataPoint) :
  writeFault (medium (bee w)) = None ->
  (pair d1 <> pair d2 \/ timestamp d1 <> timestamp d2) ->
  bee (snd ((savePriceData (Some h) d1 ;; savePriceData (Some h) d2) w))
  = bee (snd ((savePriceData (Some h) d2 ;; savePriceData (Some h) d1) w)).
Proof.
  intros Hm Hne. unfold bind.
  rewrite (StoreFacts.savePriceData_healthy h d1 w Hm).
  rewrite (StoreFacts.savePriceData_healthy h d2 w Hm).
  rewrite !StoreFacts.savePriceData_healthy by exact Hm.
  cbn [snd bee setBee entries version medium].
  f_equal. apply insert_comm.
  intros E. apply KeyProps.keyOf_inj in E. destruct E, Hne; congruence.
Qed.

Lemma writes_of_distinct_records_commute_witness :
  bee (snd ((savePriceData db0 (mkPoint "BTC-USDT" 999 (QArith_base.Qmake 1 1) ["A"] None) ;;
             savePriceData db0 (mkPoint "BTC-USDT" 1000 (QArith_base.Qmake 2 1) ["B"] None))
              freshWorld))
  = bee (snd ((savePriceData db0 (mkPoint "BTC-USDT" 1000 (QArith_base.Qmake 2 1) ["B"] None) ;;
               savePriceData db0 (mkPoint "BTC-USDT" 999 (QArith_base.Qmake 1 1) ["A"] None))
                freshWorld)).
Proof.
  apply (writes_of_distinct_records_commute freshWorld (mkHandle 0 "./db/crypto-prices")).
  - reflexivity.
  - right. discriminate.
Defined.

End IsolationProps.

Module ReadProps.

Local Open Scope eff_scope.

Import Hyperbee HyperbeeClient RpcService Scenario Cases.

Lemma getLatestPrice_reads (db : option Handle) (s : string) (w : World) :
  bee (snd (getLatestPrice db s w)) = bee w.
Proof.
  destruct db as [h|]; [|reflexivity].
  unfold getLatestPrice, tryCatch, bind, dbStream, ret, throw, consoleError, emit.
  destruct (createReadStream _ _) as [[|e es] [err|]]; reflexivity.
Qed.

Lemma getHistoricalPricesOf_reads (db : option Handle) (s : string)
    (from to : JsNumber) (w : World) :
  bee (snd (getHistoricalPricesOf db s from to w)) = bee w.
Proof.
  destruct db as [h|]; [|reflexivity].
  unfold getHistoricalPricesOf, bind, dbStream, ret, consoleError, emit.
  cbn [fst snd].
  destruct (snd (createReadStream _ _)); reflexivity.
Qed.

(** What [getLatestPrice] returns depends on the store only. *)
Lemma getLatestPrice_store (db : option Handle) (s : string) (w1 w2 : World) :
  bee w1 = bee w2 ->
  fst (getLatestPrice db s w1) = fst (getLatestPrice db s w2).
Proof.
  intros E. destruct db as [h|]; [|reflexivity].
  unfold getLatestPrice, tryCatch, bind, dbStream, ret, throw, consoleError, emit.
  rewrite E.
  destruct (createReadStream _ _) as [[|e es] [err|]]; reflexivity.
Qed.

Lemma mapM_latest_reads (h : Handle) (items : list Json) :
  forall w,
    bee (snd (mapM (fun pair => getLatestPrice (Some h) (toStr pair)) items w)) = bee w
    /\ exists rs,
         fst (mapM (fun pair => getLatestPrice (Some h) (toStr pair)) items w) = Ok rs
         /\ Forall2 (fun v r => fst (getLatestPrice (Some h) (toStr v) w) = Ok r) items rs.
Proof.
  induction items as [|v items IH]; intros w; cbn [mapM].
  - split; [reflexivity|]. exists []. split; [reflexivity | constructor].
  - unfold bind.
    destruct (QueryProps.getLatestPrice_returns h (toStr v) w) as (r & w1 & E).
    pose proof (getLatestPrice_reads (Some h) (toStr v) w) as B1.
    rewrite E in *. cbn [snd] in B1.
    destruct (IH w1) as (B2 & rs & E2 & F2).
    destruct (mapM _ items w1) as [res w2]. cbn [fst snd] in *. subst res.
    unfold ret. cbn [fst snd]. split; [congruence|].
    exists (r :: rs). split; [reflexivity|].
    constructor; [now rewrite E|].
    eapply Forall2_impl; [|exact F2].
    intros a b Hab. rewrite <- Hab. apply getLatestPrice_store. congruence.
Qed.

Lemma historicalLoop_reads (h : Handle) (from to : JsNumber) (items : list Json) :
  forall results w, bee (snd (historicalLoop h from to items results w)) = bee w.
Proof.
  induction items as [|v items IH]; intros results w; cbn [historicalLoop].
  - reflexivity.
  - unfold bind.
    pose proof (getHistoricalPricesOf_reads (Some h) (toStr v) from to w) as B1.
    destruct (QueryProps.getHistoricalPricesOf_returns h (toStr v) from to w) as (r & w1 & E).
    rewrite E in *. cbn [snd] in B1. rewrite IH. exact B1.
Qed.

(** X11: the handlers getLatestPrices and getHistoricalPrices leave the
    store as it was, for every request, well formed or not. *)
Theorem queries_never_write (hbee : Handle) (parsed : Result Json) (w : World) :
  bee (snd (RpcService.getLatestPrices hbee parsed w)) = bee w
  /\ bee (snd (RpcService.getHistoricalPrices hbee parsed w)) = bee w.
Proof.
  split.
  - unfold RpcService.getLatestPrices, tryCatch, bind, liftResult, destructure,
      throw, ret, consoleError, emit.
    destruct parsed as [[| b | n | s | items | fields]|e]; try reflexivity.
    destruct (lookup "pairs" fields) as [[| b | n | s | items | fs]|]; try reflexivity.
    destruct (mapM_latest_reads hbee items w) as (B & rs & E & _).
    destruct (mapM _ items w) as [res w1]. cbn [fst snd] in *. subst res. exact B.
  - unfold RpcService.getHistoricalPrices, tryCatch, bind, liftResult, destructure,
      throw, ret, consoleError, emit.
    destruct parsed as [[| b | n | s | items | fields]|e]; try reflexivity.
    destruct (lookup "pairs" fields) as [[| b | n | s | items | fs]|];
      destruct (lookup "from" fields) as [[| b1 | n1 | s1 | i1 | f1]|];
      destruct (lookup "to" fields) as [[| b2 | n2 | s2 | i2 | f2]|]; try reflexivity.
    pose proof (historicalLoop_reads hbee n1 n2 items [] w) as B.
    destruct (QueryProps.historicalLoop_returns hbee n1 n2 items [] w) as (m & w' & E).
    rewrite E in *. exact B.
Qed.





End ReadProps.

Module FeedProps.

Local Open Scope eff_scope.

Import Hyperbee HyperbeeClient Coingecko Scenario Cases Batch Feed.

Lemma fetchLoop_spec (coins : list Coin) :
  forall (acc : list DataPoint) (w : World),
    exists rs w',
      fetchLoop coins acc w = (Ok (acc ++ rs)%list, w')
      /\ map pair rs = map (fun c => symbol c ++ "-USDT") (filter (priced w) coins)
      /\ clock w' = (clock w + 500 * Z.of_nat (List.length coins))%Z
      /\ Forall (fun d => (clock w <= timestamp d < clock w')%Z) rs
      /\ StronglySorted stampedBefore rs
      /\ bee w' = bee w /\ priceOf w' = priceOf w.
Proof.
  induction coins as [|coin rest IH]; intros acc w.
  - exists [], w. cbn [fetchLoop]. unfold ret. rewrite app_nil_r.
    repeat split; try constructor. cbn. lia.
  - cbn [fetchLoop].
    unfold bind, consoleLog, consoleWarn, emit, getAveragePrice, dateNow, sleep, ret.
    cbn [priceOf setConsole clock filter]. unfold priced at 1.
    destruct (priceOf w (id coin)) as [pd|] eqn:Hp; cbn [clock setConsole].
    + match goal with |- context [fetchLoop rest ?a ?w0] =>
        destruct (IH a w0) as (rs & w' & E & Hm & Hc & Hr & Hs & Hb & Hq) end.
      rewrite E. cbn [clock setClock setConsole bee priceOf] in *.
      eexists (_ :: rs), w'. split; [now rewrite <- app_assoc|].
      split; [cbn [map pair]; f_equal; rewrite Hm; apply f_equal;
              apply filter_ext; intros c; unfold priced; now cbn|].
      split; [rewrite Hc; cbn [List.length]; lia|].
      split; [constructor; [cbn [timestamp]; lia|];
              eapply Forall_impl; [|exact Hr]; cbn; intros; lia|].
      split; [constructor; [exact Hs|];
              eapply Forall_impl; [|exact Hr]; unfold stampedBefore; cbn; intros; lia|].
      split; assumption.
    + match goal with |- context [fetchLoop rest ?a ?w0] =>
        destruct (IH a w0) as (rs & w' & E & Hm & Hc & Hr & Hs & Hb & Hq) end.
      rewrite E. cbn [clock setClock setConsole bee priceOf] in *.
      exists rs, w'. split; [reflexivity|].
      split; [rewrite Hm; apply f_equal;
              apply filter_ext; intros c; unfold priced; now cbn|].
      split; [rewrite Hc; cbn [List.length]; lia|].
      split; [eapply Forall_impl; [|exact Hr]; cbn; intros; lia|].
      split; [exact Hs|]. split; assumption.
Qed.



End FeedProps.

Module TaskProps.

Local Open Scope eff_scope.

Import Hyperbee HyperbeeClient Coingecko Scenario Cases Batch Feed.

Lemma saveAll_returns (h : Handle) (ds : list DataPoint) :
  forall w, fst (saveAll (Some h) ds w) = Ok tt.
Proof.
  unfold saveAll. induction ds as [|d ds IH]; intros w; cbn [forEach]; [reflexivity|].
  unfold bind.
  assert (Hok : fst (savePriceData (Some h) d w) = Ok tt).
  { unfold savePriceData, tryCatch, dbPut, Hyperbee.put, consoleError, emit.
    now destruct (writeFault (medium (bee w))). }
  destruct (savePriceData (Some h) d w) as [r w1]. cbn [fst] in Hok. subst r.
  apply IH.
Qed.

(** What a batch of writes does to the store depends on the store only. *)
Lemma saveAll_store (h : Handle) (ds : list DataPoint) :
  forall w1 w2, bee w1 = bee w2 ->
                bee (snd (saveAll (Some h) ds w1)) = bee (snd (saveAll (Some h) ds w2)).
Proof.
  unfold saveAll. induction ds as [|d ds IH]; intros w1 w2 E; cbn [forEach]; [exact E|].
  unfold bind.
  assert (S1 : forall w, exists w', savePriceData (Some h) d w = (Ok tt, w')
                                    /\ bee w' = snd (Hyperbee.put
                                                 (keyOf (pair d) (timestamp d))
                                                 (mkValue (HyperbeeClient.averagePrice d)
                                                          (HyperbeeClient.exchanges d))
                                                 (bee w))).
  { intros w. unfold savePriceData, tryCatch, dbPut, Hyperbee.put, consoleError, emit.
    destruct (writeFault (medium (bee w))); eexists; split; reflexivity. }
  destruct (S1 w1) as (w1' & -> & B1). destruct (S1 w2) as (w2' & -> & B2).
  apply IH. rewrite B1, B2, E. reflexivity.
Qed.

Lemma saveAll_version (h : Handle) (ds : list DataPoint) :
  forall w, writeFault (medium (bee w)) = None ->
            version (bee (snd (saveAll (Some h) ds w)))
            = version (bee w) + List.length ds
            /\ medium (bee (snd (saveAll (Some h) ds w))) = medium (bee w).
Proof.
  unfold saveAll. induction ds as [|d ds IH]; intros w Hm; cbn [forEach].
  - cbn. split; [lia | reflexivity].
  - unfold bind. rewrite (StoreFacts.savePriceData_healthy h d w Hm).
    match goal with |- context [forEach ds _ ?w0] =>
      destruct (IH w0) as [V M]; [exact Hm|] end.
    rewrite V, M. cbn. split; [lia | reflexivity].
Qed.

Lemma task_unfold (db : option Handle) (w : World) (ds : list DataPoint) :
  fst (fetchTopCryptoData w) = Ok ds ->
  exists w2,
    bee w2 = bee w
    /\ Server.dataCollectionTask db w =
       tryCatch
         (match ds with
          | _ :: _ =>
              forEach ds (fun dataPoint => savePriceData db dataPoint) ;;
              consoleLog ("Collected and saved data for "
                            ++ numToString (Z.of_nat (List.length ds))
                            ++ " crypto pairs.")
          | [] => consoleLog "No new crypto data fetched."
          end)
         (fun error => consoleError "Error during data collection task:" error) w2.
Proof.
  intros Hfeed.
  set (w1 := snd (consoleLog "Running data collection task..." w)).
  assert (H1 : fst (fetchTopCryptoData w1) = Ok ds).
  { rewrite <- Hfeed. apply IngestionProps.fetchTopCryptoData_sameFeed. repeat split. }
  assert (Hb : bee (snd (fetchTopCryptoData w1)) = bee w)
    by (rewrite IngestionProps.fetchTopCryptoData_bee; reflexivity).
  unfold Server.dataCollectionTask. unfold bind at 1.
  change (consoleLog "Running data collection task..." w) with (Ok tt, w1).
  cbv beta iota. unfold tryCatch at 1. unfold bind at 1.
  destruct (fetchTopCryptoData w1) as [r w2]. cbn [fst snd] in H1, Hb. subst r.
  exists w2. split; [exact Hb|]. reflexivity.
Qed.

Lemma fetchTopCryptoData_returns (w : World) :
  exists ds w', fetchTopCryptoData w = (Ok ds, w').
Proof.
  unfold fetchTopCryptoData, bind, getTopCoins, tryCatch.
  destruct (markets w) as [[|c cs]|e]; cbv beta iota.
  - eexists. eexists. reflexivity.
  - destruct (FeedProps.fetchLoop_spec (c :: cs) [] w) as (rs & w' & E & _).
    rewrite E. eexists. eexists. reflexivity.
  - eexists. eexists. reflexivity.
Qed.

(** X15: the data collection task of the server never rejects, and
    without a database handle it leaves the store as it was. *)
Theorem dataCollectionTask_never_throws (db : option Handle) (w : World) :
  fst (Server.dataCollectionTask db w) = Ok tt
  /\ (db = None -> bee (snd (Server.dataCollectionTask db w)) = bee w).
Proof.
  destruct (fetchTopCryptoData_returns w) as (ds & w' & E).
  destruct (task_unfold db w ds) as (w2 & Hb & ->); [now rewrite E|].
  unfold tryCatch, bind, consoleLog, consoleError, emit.
  destruct ds as [|d ds].
  - split; [reflexivity | intros _; exact Hb].
  - destruct db as [h|].
    + pose proof (saveAll_returns h (d :: ds) w2) as R. unfold saveAll in R.
      destruct (forEach (d :: ds) _ w2) as [r w3]. cbn [fst] in R. subst r.
      split; [reflexivity | discriminate].
    + cbn [forEach]. unfold bind. cbn [savePriceData]. unfold throw.
      split; [reflexivity | intros _; exact Hb].
Qed.

Lemma dataCollectionTask_never_throws_witness :
  fst (Server.dataCollectionTask None threeCoins) = Ok tt
  /\ bee (snd (Server.dataCollectionTask None threeCoins)) = bee threeCoins.
Proof.
  destruct (dataCollectionTask_never_throws None threeCoins) as [H1 H2].
  split; [exact H1 | exact (H2 eq_refl)].
Defined.

(** X16: the store after a data collection task is the store after
    saving, one by one, the data points that fetchTopCryptoData returned; on
    a writable medium the version grows by the number of data points. *)
Theorem dataCollectionTask_stores_the_batch (h : Handle) (w : World)
    (ds : list DataPoint) :
  fst (fetchTopCryptoData w) = Ok ds ->
  bee (snd (Server.dataCollectionTask (Some h) w)) = bee (snd (saveAll (Some h) ds w))
  /\ (writeFault (medium (bee w)) = None ->
      version (bee (snd (Server.dataCollectionTask (Some h) w)))
      = version (bee w) + List.length ds).
Proof.
  intros Hfeed.
  assert (B : bee (snd (Server.dataCollectionTask (Some h) w))
              = bee (snd (saveAll (Some h) ds w))).
  { destruct (task_unfold (Some h) w ds Hfeed) as (w2 & Hb & ->).
    unfold tryCatch, bind, consoleLog, consoleError, emit.
    destruct ds as [|d ds]; [exact Hb|].
    pose proof (saveAll_returns h (d :: ds) w2) as R.
    pose proof (saveAll_store h (d :: ds) w2 w Hb) as S. unfold saveAll in R, S |- *.
    destruct (forEach (d :: ds) _ w2) as [r w3]. cbn [fst snd] in R, S. subst r.
    exact S. }
  split; [exact B|].
  intros Hm. rewrite B. now apply saveAll_version.
Qed.

Lemma dataCollectionTask_stores_the_batch_witness :
  version (bee (snd (Server.dataCollectionTask db0 threeCoins))) = 2.
Proof.
  destruct (FeedProps.fetchLoop_spec
              [mkCoin "bitcoin" "BTC"; mkCoin "nocoin" "NOC"; mkCoin "ethereum" "ETH"]
              [] threeCoins) as (rs & w' & E & Hp & _).
  assert (F : fst (fetchTopCryptoData threeCoins) = Ok rs)
    by (change (fetchTopCryptoData threeCoins) with
          (fetchLoop [mkCoin "bitcoin" "BTC"; mkCoin "nocoin" "NOC"; mkCoin "ethereum" "ETH"]
                     [] threeCoins); now rewrite E).
  destruct (dataCollectionTask_stores_the_batch (mkHandle 0 "./db/crypto-prices")
              threeCoins rs F) as [_ V].
  change (Some (mkHandle 0 "./db/crypto-prices")) with db0 in V.
  rewrite (V eq_refl).
  apply (f_equal (@List.length string)) in Hp. rewrite length_map in Hp.
  rewrite Hp. reflexivity.
Defined.

End TaskProps.

Module TrafficProps.

Import RpcService EventLoop Traffic SchedulerProps.

(** X17: after [stop] in any reachable state of the event loop no timer
    is left, the scheduler is not running, no tick can start an execution,
    and the executions in flight are left to finish. *)
Theorem stop_cancels_the_timer (i : Z) (evs : list Event) (L : Loop) :
  run (boot i) evs = Some L ->
  timers (stop L) = []
  /\ Scheduler.isRunning (sched (stop L)) = false
  /\ pending (stop L) = pending L
  /\ forall t, step (stop L) (Tick t) = None.
Proof.
  intros Hreach. pose proof (reachable_Inv _ _ _ Hreach) as [Hp Ht Hr Hu Hf].
  assert (T : timers (stop L) = []).
  { unfold stop. destruct (Scheduler.isRunning (sched L)) eqn:Hrun; simpl.
    - rewrite Ht. destruct (Scheduler.timerId (sched L)); simpl; [|reflexivity].
      now rewrite Nat.eqb_refl.
    - rewrite Ht.
      destruct (Scheduler.timerId (sched L)); [discriminate Hr | reflexivity]. }
  split; [exact T|]. split; [|split].
  - unfold stop. destruct (Scheduler.isRunning (sched L)) eqn:Hrun; simpl; auto.
  - unfold stop. destruct (Scheduler.isRunning (sched L)); reflexivity.
  - intros t. simpl. now rewrite T.
Qed.

Lemma stop_cancels_the_timer_witness :
  timers (stop (start (boot Server.FETCH_INTERVAL_MS))) = []
  /\ inFlight (stop (start (boot Server.FETCH_INTERVAL_MS))) = 1
  /\ step (stop (start (boot Server.FETCH_INTERVAL_MS))) (Tick 0) = None.
Proof.
  destruct (stop_cancels_the_timer Server.FETCH_INTERVAL_MS [CallStart]
              (start (boot Server.FETCH_INTERVAL_MS)) eq_refl)
    as (H1 & _ & H3 & H4).
  split; [exact H1|]. split; [|apply H4].
  unfold inFlight. now rewrite H3.
Defined.

Lemma take_awaiting (x : nat) (l : list Execution) (e : Execution)
    (rest : list Execution) :
  take x l = Some (e, rest) ->
  List.length (filter isResponding l)
  = (if isResponding e then 1 else 0) + List.length (filter isResponding rest).
Proof.
  revert e rest. induction l as [|a l IH]; simpl; intros e rest H; [discriminate H|].
  destruct (Nat.eqb (exec a) x).
  - injection H as <- <-. destruct (isResponding a); reflexivity.
  - destruct (take x l) as [[f rest']|] eqn:Ht; [|discriminate H].
    injection H as <- <-. specialize (IH f rest' eq_refl).
    simpl. destruct (isResponding a); simpl; rewrite IH;
      destruct (isResponding f); lia.
Qed.

Lemma answered_step (L L' : Loop) (ev : Event) :
  Inv L -> step L ev = Some L' ->
  List.length (replies L') + awaiting L'
  = List.length (replies L) + awaiting L + (if isRequest ev then 1 else 0)
  /\ (Forall (fun r => snd r = ack) (replies L) ->
      Forall (fun r => snd r = ack) (replies L')).
Proof.
  intros HI Hstep. unfold awaiting.
  destruct ev as [| | | timer | req | x o].
  - injection Hstep as <-. unfold start.
    destruct (Scheduler.isRunning (sched L)); [simpl; split; [lia | auto]|].
    unfold spawn. rewrite advance_runTask. simpl.
    rewrite filter_app, length_app. simpl. split; [lia | auto].
  - injection Hstep as <-. unfold stop.
    destruct (Scheduler.isRunning (sched L)); simpl; split; auto; lia.
  - injection Hstep as <-. unfold spawn. rewrite advance_runOnDemand. simpl.
    rewrite filter_app, length_app. simpl. split; [lia | auto].
  - simpl in Hstep.
    destruct (existsb (Nat.eqb timer) (timers L)); [|discriminate Hstep].
    injection Hstep as <-. unfold spawn. rewrite advance_runTask. simpl.
    rewrite filter_app, length_app. simpl. split; [lia | auto].
  - injection Hstep as <-. unfold serve. rewrite advance_trigger. simpl.
    rewrite filter_app, length_app. simpl. split; [lia | auto].
  - assert (Hx : In x (map exec (pending L))).
    { simpl in Hstep.
      destruct (take x (pending L)) as [[e rest]|] eqn:Hx; [|discriminate Hstep].
      eapply take_in. exact Hx. }
    destruct (settle_step L x o HI Hx)
      as (e & rest & L1 & Ht & Hs & _ & _ & Hp & _ & _ & _ & Hr).
    rewrite Hs in Hstep. injection Hstep as <-.
    rewrite Hp, Hr, (take_awaiting _ _ _ _ Ht). unfold isResponding.
    destruct (waiter e); simpl.
    + split; [lia | auto].
    + rewrite length_app. simpl. split; [lia|].
      intros H. apply Forall_app. split; [exact H|]. now constructor.
Qed.

(** X18: in every reachable state of the event loop, the replies
    sent and the handlers still waiting for their run add up to the trigger
    requests received; every reply is the success acknowledgement, and no
    failure has escaped to the process. *)
Theorem every_request_is_answered_once (i : Z) (evs : list Event) (L : Loop) :
  run (boot i) evs = Some L ->
  List.length (replies L) + awaiting L = requests evs
  /\ Forall (fun r => snd r = ack) (replies L)
  /\ faults L = [].
Proof.
  intros Hreach.
  assert (G : forall evs L0 L1,
             Inv L0 -> run L0 evs = Some L1 ->
             List.length (replies L1) + awaiting L1
             = List.length (replies L0) + awaiting L0 + requests evs
             /\ (Forall (fun r => snd r = ack) (replies L0) ->
                 Forall (fun r => snd r = ack) (replies L1))).
  { clear. induction evs as [|ev evs IH]; simpl; intros L0 L1 HI H.
    - injection H as <-. unfold requests. simpl. split; [lia | auto].
    - destruct (step L0 ev) as [L'|] eqn:Hs; [|discriminate H].
      destruct (answered_step L0 L' ev HI Hs) as [C1 A1].
      destruct (IH L' L1 (Inv_step _ _ _ HI Hs) H) as [C2 A2].
      unfold requests in *. simpl.
      destruct (isRequest ev); simpl in *; split; auto; lia. }
  destruct (G evs (boot i) L (Inv_boot i) Hreach) as [C A].
  split; [exact C|]. split; [apply A; constructor|].
  exact (inv_faults _ (reachable_Inv _ _ _ Hreach)).
Qed.

Lemma every_request_is_answered_once_witness :
  exists L,
    run (boot Server.FETCH_INTERVAL_MS)
        [Request 7; CallStart; Request 8; Settle 0 (Rejected "feed unreachable")]
    = Some L
    /\ List.length (replies L) + awaiting L = 2.
Proof.
  eexists. split; [reflexivity|].
  exact (proj1 (every_request_is_answered_once Server.FETCH_INTERVAL_MS
                  [Request 7; CallStart; Request 8;
                   Settle 0 (Rejected "feed unreachable")]
                  _ eq_refl)).
Defined.

End TrafficProps.

Module ExportProps.

Local Open Scope eff_scope.

Import Hyperbee HyperbeeClient Decimals DecimalFacts Domain Scenario Cases Batch Visualization.

Lemma exported_keyOf (s : string) (t : Z) (v : Value) :
  slashFree s = true -> exported (mkEntry (keyOf s t) v) = recordOf s t v.
Proof.
  intros Hs. unfold exported, recordOf, Js.index. cbn [key value].
  rewrite KeyProps.keyOf_reduced, (split_slash_append s _ Hs).
  rewrite (split_slashFree _ (slashFree_numToString t)).
  cbn [nth_error]. now rewrite parseInt_numToString.
Qed.

Lemma savePriceData_keyed (w : World) (db : option Handle) (d : DataPoint) :
  slashFree (pair d) = true -> keyed (bee w) ->
  keyed (bee (snd (savePriceData db d w))).
Proof.
  intros Hd Hk e He. destruct db as [h|]; [|now apply Hk].
  revert He. unfold savePriceData, tryCatch, dbPut, Hyperbee.put, consoleError, emit.
  destruct (writeFault (medium (bee w))); cbn [fst snd bee setBee setConsole entries].
  - apply Hk.
  - intros He. apply BatchProps.In_insert in He. destruct He as [->|He]; [|now apply Hk].
    exists (pair d), (timestamp d). split; [reflexivity | exact Hd].
Qed.

(** X19: when the store opens and its stream does not fail, and every
    key is the key of a data point whose pair has no ['/'], extractData
    exports one record per entry, the records exported are exactly the
    records stored, and the store is left as it was. *)
Theorem export_lists_the_store (w : World) :
  diskFault w (resolve w CRYPTO_DATA_DB_PATH) = None ->
  readFault (medium (bee w)) = None ->
  keyed (bee w) ->
  exists rs,
    fst (extractData w) = Ok (Some rs)
    /\ List.length rs = List.length (entries (bee w))
    /\ (forall s t v, slashFree s = true ->
                      (In (recordOf s t v) rs <-> holds (bee w) s t v))
    /\ bee (snd (extractData w)) = bee w.
Proof.
  intros Hd Hm Hk.
  exists (map exported (entries (bee w))).
  unfold extractData, bind, tryCatch, consoleLog, consoleError, emit, liftResult,
    throw, ret, readAll.
  cbn [diskFault resolve setConsole bee]. rewrite Hd, Hm. cbn [fst snd].
  split; [reflexivity|]. split; [apply length_map|]. split; [|reflexivity].
  intros s t v Hs. rewrite in_map_iff. split.
  - intros (e & He & Hin).
    destruct (Hk e Hin) as (s' & t' & Hkey & Hs').
    destruct e as [k v']. cbn [key] in Hkey. subst k.
    rewrite (exported_keyOf s' t' v' Hs') in He.
    unfold recordOf in He. injection He as -> -> E2 E3.
    unfold holds. destruct v, v'. cbn in E2, E3. now subst.
  - intros Hin. exists (mkEntry (keyOf s t) v).
    split; [now apply exported_keyOf | exact Hin].
Qed.

Lemma export_lists_the_store_witness :
  fst (extractData oneRecord)
  = Ok (Some [mkPrice "BTC-USDT" (Some 1000%Z) (QArith_base.Qmake 50000 1) ["A"; "B"]]).
Proof.
  destruct (export_lists_the_store oneRecord eq_refl eq_refl) as (rs & E & Hlen & Hin & _).
  - intros e [<-|[]]. exists "BTC-USDT", 1000%Z. split; reflexivity.
  - rewrite E. f_equal. f_equal.
    destruct rs as [|r [|r2 rs]]; try discriminate Hlen.
    f_equal.
    assert (H : In (recordOf "BTC-USDT" 1000 (mkValue (QArith_base.Qmake 50000 1) ["A"; "B"])) [r])
      by (apply Hin; [reflexivity | now left]).
    destruct H as [->|[]]. reflexivity.
Defined.

End ExportProps.

Module SeedProps.

Local Open Scope eff_scope.

Import Seeds.

Lemma get_insert (name : string) (v : string) (s : list (string * string)) :
  get name (insert name v s) = Some v.
Proof.
  induction s as [|[k v'] s IH]; simpl.
  - now rewrite String.eqb_refl.
  - destruct (String.compare name k) eqn:C; simpl.
    + now rewrite String.eqb_refl.
    + now rewrite String.eqb_refl.
    + assert (N : String.eqb k name = false).
      { apply String.eqb_neq. intros ->. rewrite KeyOrder.compare_refl in C. discriminate C. }
      now rewrite N.
Qed.

Lemma get_insert_other (name other : string) (v : string) (s : list (string * string)) :
  other <> name -> get other (insert name v s) = get other s.
Proof.
  intros Hne.
  assert (N : String.eqb name other = false) by (apply String.eqb_neq; congruence).
  induction s as [|[k v'] s IH]; simpl.
  - now rewrite N.
  - destruct (String.compare name k) eqn:C; simpl.
    + apply String.compare_eq_iff in C. subst k. now rewrite N.
    + now rewrite N.
    + now rewrite IH.
Qed.

(** X20: once getOrCreateSeed has returned a seed for a name, a
    second call for that name returns the same seed and changes nothing (no
    random bytes drawn, no write, no log line), and a call for another name
    leaves the seed of the first in place. *)
Theorem getOrCreateSeed_is_stable (name other : string) (m m1 : Meta) (seed : string) :
  getOrCreateSeed name m = (Ok seed, m1) ->
  getOrCreateSeed name m1 = (Ok seed, m1)
  /\ (other <> name ->
      get name (store (snd (getOrCreateSeed other m1))) = Some seed).
Proof.
  unfold getOrCreateSeed. generalize ("Generated and stored new seed for " ++ other).
  generalize ("Generated and stored new seed for " ++ name).
  unfold seedOf. intros l l' H.
  destruct (getFault m) as [e|] eqn:GF; [discriminate H|].
  destruct (get name (store m)) as [s0|] eqn:G.
  - injection H as <- <-. rewrite GF, G. split; [reflexivity|].
    intros Hne. destruct (get other (store m)); [exact G|].
    destruct (putFault m); cbn [snd store]; [exact G|].
    rewrite get_insert_other by congruence. exact G.
  - destruct (putFault m) as [e|] eqn:F; [discriminate H|].
    injection H as <- <-. cbn [store getFault putFault drawn random lines].
    rewrite get_insert. split; [reflexivity|].
    intros Hne.
    destruct (get other (insert name (random m (drawn m)) (store m)));
      cbn [snd store]; [apply get_insert|].
    rewrite get_insert_other by congruence. apply get_insert.
Qed.

Lemma getOrCreateSeed_is_stable_witness :
  getOrCreateSeed "dht-seed" (snd (getOrCreateSeed "dht-seed" firstBoot))
  = (Ok "seed-0", snd (getOrCreateSeed "dht-seed" firstBoot))
  /\ get "dht-seed"
         (store (snd (getOrCreateSeed "rpc-seed" (snd (getOrCreateSeed "dht-seed" firstBoot)))))
     = Some "seed-0".
Proof.
  destruct (getOrCreateSeed_is_stable "dht-seed" "rpc-seed" firstBoot _ "seed-0" eq_refl)
    as [H1 H2].
  split; [exact H1 | apply H2; discriminate].
Defined.

End SeedProps.
